(** * TeleShare: the item registry and the request ledger

    A shallow embedding of [database.py] (the SQLite store behind the bot)
    and of the owner/requester display code of [bot.py].

    Conventions.
    - A table is a finite map from its INTEGER PRIMARY KEY (the rowid) to
      the remaining columns; a scan lists the rows by ascending rowid.
    - A column bound to a statement parameter is an [option] exactly when
      the schema lets it be NULL; a column that only ever receives its
      DEFAULT or an SQL literal ([status], [created_at],
      [transaction_type]) holds that value directly.
    - Python [int] is [Z]; Python [str] is [string], one [ascii] per
      character (code points 0..255).
    - [CURRENT_TIMESTAMP] is read off the argument [now] of every method
      that writes one: a [clock] gives the time of the first statement
      of the call that evaluates it and the time of the second.
    - An [int] handed to [add_user], [create_request], [accept_request]
      or [reject_request] is bound as an SQLite INTEGER: outside the
      signed 64-bit range the binding raises [OverflowError] before the
      statement runs.  The owner id of [add_dgsc] and the ids given to
      the queries are taken as the bot passes them, Telegram user ids
      and ids read from the database, which are in that range.  Rowids
      are not bounded.
    - A search term is as long as a message can be (4096 characters):
      SQLite's limit of 50000 bytes on a LIKE pattern is out of reach
      and not modelled. *)

From Stdlib Require Import ZArith String Ascii DecimalString DecimalPos DecimalZ.
From stdpp Require Import base option list gmap strings sorting.

Local Open Scope string_scope.
Local Open Scope list_scope.
Local Open Scope Z_scope.

(** ** Schema *)

Definition timestamp : Type := string.

(** What [CURRENT_TIMESTAMP] yields during one call: in the first
    statement of the call that evaluates it, and in the second. *)
Record clock : Type := Clock {
  early : timestamp;
  late : timestamp
}.

(** A call made within one second. *)
Definition at_time (t : string) : clock := Clock t t.
Coercion at_time : string >-> clock.

(** The range of an SQLite INTEGER. *)
Definition in_int64 (z : Z) : Prop :=
  -9223372036854775808 ≤ z ≤ 9223372036854775807.

#[global] Instance in_int64_dec z : Decision (in_int64 z).
Proof. unfold in_int64. apply _. Defined.

(** [users]: user_id is the key. *)
Record user_row : Type := UserRow {
  username : option string;
  first_name : option string;
  last_name : option string;
  user_created_at : timestamp
}.

(** [pendrives]: name TEXT UNIQUE NOT NULL, the rest nullable. *)
Record pendrive_row : Type := PendriveRow {
  name : string;
  description : option string;
  owner : option Z;                (* pendrives.current_owner_id *)
  pendrive_created_at : timestamp
}.

(** [requests]: the three references are NOT NULL. *)
Record request_row : Type := RequestRow {
  pendrive_id : Z;
  requester_id : Z;
  current_owner_id : Z;            (* the owner snapshotted at creation *)
  status : string;
  message : option string;
  request_created_at : timestamp;
  resolved_at : option timestamp
}.

(** [transactions]: from_user_id is the only nullable reference. *)
Record transaction_row : Type := TransactionRow {
  t_pendrive_id : Z;
  from_user_id : option Z;
  to_user_id : Z;
  transaction_type : string;
  transaction_created_at : timestamp
}.

(** The database file: four tables and the AUTOINCREMENT counters that
    SQLite keeps in [sqlite_sequence]. *)
Record db : Type := Db {
  users : gmap Z user_row;
  pendrives : gmap Z pendrive_row;
  requests : gmap Z request_row;
  transactions : gmap Z transaction_row;
  seq_pendrives : Z;
  seq_requests : Z;
  seq_transactions : Z
}.

(** [init_database] on a fresh file: CREATE TABLE IF NOT EXISTS, four times. *)
Definition init_database : db :=
  Db ∅ ∅ ∅ ∅ 0 0 0.

(** ** The statement layer *)

Inductive exn : Type :=
  | IntegrityError          (* sqlite3.IntegrityError: a constraint failed *)
  | OverflowError.          (* Python int too large to convert to SQLite INTEGER *)

Inductive result (A : Type) : Type :=
  | Done (a : A)
  | Raised (e : exn).
Arguments Done {A} a.
Arguments Raised {A} e.

(** A statement run on an open connection: it either raises and leaves the
    connection as it was, or yields a value and the connection's new
    contents. *)
Definition sql (A : Type) : Type := db → result (A * db).

#[global] Instance sql_ret : MRet sql :=
  λ A a st, Done (a, st).

#[global] Instance sql_bind : MBind sql :=
  λ A B k m st,
    match m st with
    | Done (a, st') => k a st'
    | Raised e => Raised e
    end.

(** Largest rowid in a table, 0 when it is empty. *)
Definition max_rowid {A : Type} (m : gmap Z A) : Z :=
  foldr Z.max 0 (map_to_list m).*1.

(** AUTOINCREMENT: one more than the largest rowid the table holds or has
    ever held. *)
Definition next_rowid {A : Type} (m : gmap Z A) (seq : Z) : Z :=
  Z.max (max_rowid m) seq + 1.

(** Rows of a table in rowid order. *)
Definition rowid_le {A : Type} (x y : Z * A) : Prop := x.1 ≤ y.1.

#[global] Instance rowid_le_dec {A : Type} : RelDecision (@rowid_le A) :=
  λ x y, Z_le_dec x.1 y.1.

Definition scan {A : Type} (m : gmap Z A) : list (Z * A) :=
  merge_sort rowid_le (map_to_list m).

(** Is [n] the name of some row? (the UNIQUE index on pendrives.name;
    TEXT compares byte for byte). *)
Definition name_taken (n : string) (m : gmap Z pendrive_row) : bool :=
  bool_decide (Exists (λ kv : Z * pendrive_row, name kv.2 = n) (map_to_list m)).

(** [INSERT INTO pendrives (name, description, current_owner_id)
     VALUES (?, ?, ?)]; yields [cursor.lastrowid]. *)
Definition insert_pendrive (n d : option string) (o : option Z)
    (now : timestamp) : sql Z := λ st,
  match n with
  | None => Raised IntegrityError                       (* NOT NULL *)
  | Some n =>
      if name_taken n (pendrives st) then Raised IntegrityError   (* UNIQUE *)
      else
        let rowid := next_rowid (pendrives st) (seq_pendrives st) in
        Done (rowid,
              Db (users st) (<[rowid := PendriveRow n d o now]> (pendrives st))
                 (requests st) (transactions st)
                 rowid (seq_requests st) (seq_transactions st))
  end.

(** [INSERT INTO transactions (pendrive_id, from_user_id, to_user_id,
     transaction_type) VALUES (?, ?, ?, <literal>)]. *)
Definition insert_transaction (p from to : option Z) (kind : string)
    (now : timestamp) : sql Z := λ st,
  match p, to with
  | Some p, Some to =>
      let rowid := next_rowid (transactions st) (seq_transactions st) in
      Done (rowid,
            Db (users st) (pendrives st) (requests st)
               (<[rowid := TransactionRow p from to kind now]> (transactions st))
               (seq_pendrives st) (seq_requests st) rowid)
  | _, _ => Raised IntegrityError                       (* NOT NULL *)
  end.

(** Can the parameter be bound?  None always, an int when it fits. *)
Definition fits (x : option Z) : bool :=
  match x with
  | Some z => bool_decide (in_int64 z)
  | None => true
  end.

(** [INSERT INTO requests (pendrive_id, requester_id, current_owner_id,
     message) VALUES (?, ?, ?, ?)]: status takes its DEFAULT 'pending',
    resolved_at is NULL.  The parameters are bound before the statement
    runs. *)
Definition insert_request (p r o : option Z) (msg : option string)
    (now : timestamp) : sql Z := λ st,
  if negb (fits p && fits r && fits o) then Raised OverflowError
  else
    match p, r, o with
    | Some p, Some r, Some o =>
        let rowid := next_rowid (requests st) (seq_requests st) in
        Done (rowid,
              Db (users st) (pendrives st)
                 (<[rowid := RequestRow p r o "pending" msg now None]> (requests st))
                 (transactions st)
                 (seq_pendrives st) rowid (seq_transactions st))
    | _, _, _ => Raised IntegrityError                  (* NOT NULL *)
    end.

(** [INSERT OR REPLACE INTO users (user_id, username, first_name,
     last_name) VALUES (?, ?, ?, ?)]. *)
Definition replace_user (user_id : Z) (un fn ln : option string)
    (now : timestamp) : sql unit := λ st,
  if bool_decide (in_int64 user_id) then
    Done (tt,
          Db (<[user_id := UserRow un fn ln now]> (users st)) (pendrives st)
             (requests st) (transactions st)
             (seq_pendrives st) (seq_requests st) (seq_transactions st))
  else Raised OverflowError.

(** [SELECT pendrive_id, requester_id, current_owner_id FROM requests
     WHERE id = ? AND status = 'pending'], then [fetchone()].  Binding an
    id that does not fit 64 bits raises; a rowid is a 64-bit integer, so
    such an id is that of no row, and the range is looked at where no row
    is found. *)
Definition select_pending_request (request_id : Z) : sql (option (Z * Z * Z)) :=
  λ st,
  match requests st !! request_id with
  | Some r =>
      Done (if bool_decide (status r = "pending")
            then Some (pendrive_id r, requester_id r, current_owner_id r)
            else None, st)
  | None =>
      if bool_decide (in_int64 request_id) then Done (None, st)
      else Raised OverflowError
  end.

(** [SET current_owner_id = o] on one row. *)
Definition set_owner (o : option Z) (p : pendrive_row) : pendrive_row :=
  PendriveRow (name p) (description p) o (pendrive_created_at p).

(** [UPDATE pendrives SET current_owner_id = ? WHERE id = ?]. *)
Definition update_pendrive_owner (o : option Z) (id : Z) : sql unit := λ st,
  Done (tt,
        Db (users st) (alter (set_owner o) id (pendrives st))
           (requests st) (transactions st)
           (seq_pendrives st) (seq_requests st) (seq_transactions st)).

(** [SET status = s, resolved_at = CURRENT_TIMESTAMP] on one row. *)
Definition resolve (s : string) (now : timestamp) (r : request_row) : request_row :=
  RequestRow (pendrive_id r) (requester_id r) (current_owner_id r) s
             (message r) (request_created_at r) (Some now).

(** [UPDATE requests SET status = 'accepted',
     resolved_at = CURRENT_TIMESTAMP WHERE id = ?]. *)
Definition update_request_accepted (request_id : Z) (now : timestamp) : sql unit :=
  λ st,
  Done (tt,
        Db (users st) (pendrives st)
           (alter (resolve "accepted" now) request_id (requests st))
           (transactions st)
           (seq_pendrives st) (seq_requests st) (seq_transactions st)).

(** [UPDATE requests SET status = 'rejected',
     resolved_at = CURRENT_TIMESTAMP WHERE id = ? AND status = 'pending'];
    yields [cursor.rowcount].  The id is bound as in
    [select_pending_request]. *)
Definition update_request_rejected (request_id : Z) (now : timestamp) : sql Z :=
  λ st,
  match requests st !! request_id with
  | Some r =>
      if bool_decide (status r = "pending")
      then Done (1,
                 Db (users st) (pendrives st)
                    (<[request_id := resolve "rejected" now r]> (requests st))
                    (transactions st)
                    (seq_pendrives st) (seq_requests st) (seq_transactions st))
      else Done (0, st)
  | None =>
      if bool_decide (in_int64 request_id) then Done (0, st)
      else Raised OverflowError
  end.

(** ** The methods of [Database]

    Every method opens its own connection.  What it wrote becomes the
    database only at [conn.commit()]; a method left by an exception, or by
    [conn.close()] alone, leaves the database as it found it. *)

Definition commit {A : Type} (body : sql A) (st : db) : result A * db :=
  match body st with
  | Done (a, st') => (Done a, st')
  | Raised e => (Raised e, st)
  end.

Definition add_user (user_id : Z) (un fn ln : option string)
    (now : clock) (st : db) : result unit * db :=
  commit (replace_user user_id un fn ln (early now)) st.

Definition add_dgsc (n d : string) (owner_id : Z)
    (now : clock) (st : db) : result bool * db :=
  match (dgsc_id ← insert_pendrive (Some n) (Some d) (Some owner_id) (early now);
         (* Add initial transaction *)
         insert_transaction (Some dgsc_id) None (Some owner_id)
                            "initial_assignment" (late now)) st with
  | Done (_, st') => (Done true, st')
  | Raised IntegrityError => (Done false, st)
  | Raised e => (Raised e, st)
  end.

Definition create_request (dgsc_id requester current_owner : Z) (msg : string)
    (now : clock) (st : db) : result Z * db :=
  commit (insert_request (Some dgsc_id) (Some requester) (Some current_owner)
                         (Some msg) (early now)) st.

Definition accept_request (request_id : Z)
    (now : clock) (st : db) : result bool * db :=
  commit (res ← select_pending_request request_id;
          match res with
          | None => mret false
          | Some (dgsc_id, requester, current_owner) =>
              (* Update DGSC ownership *)
              _ ← update_pendrive_owner (Some requester) dgsc_id;
              (* Update request status *)
              _ ← update_request_accepted request_id (early now);
              (* Add transaction record *)
              _ ← insert_transaction (Some dgsc_id) (Some current_owner)
                                     (Some requester) "transfer" (late now);
              mret true
          end) st.

Definition reject_request (request_id : Z)
    (now : clock) (st : db) : result bool * db :=
  commit (affected_rows ← update_request_rejected request_id (early now);
          mret (bool_decide (affected_rows > 0))) st.

(** ** Queries *)

(** [SELECT id, name, description, created_at FROM pendrives
     WHERE current_owner_id = ?]. *)
Definition get_user_dgscs (user_id : Z) (st : db)
    : list (Z * string * option string * timestamp) :=
  omap (λ kv : Z * pendrive_row,
          if bool_decide (owner kv.2 = Some user_id)
          then Some (kv.1, name kv.2, description kv.2, pendrive_created_at kv.2)
          else None)
       (scan (pendrives st)).

(** SQLite's LIKE folds the 26 letters of ASCII and no others. *)
Definition tolower (c : ascii) : ascii :=
  let n := nat_of_ascii c in
  if bool_decide (65 ≤ n ≤ 90)%nat then ascii_of_nat (n + 32) else c.

(** [s LIKE pattern], no ESCAPE clause: [%] stands for any run of
    characters, [_] for any one character, any other character for
    itself up to ASCII case. *)
Fixpoint like_from (pattern s : string) : bool :=
  match pattern with
  | EmptyString => bool_decide (s = "")
  | String c pattern' =>
      if bool_decide (c = "%"%char) then
        (fix any_run (s : string) : bool :=
           like_from pattern' s ||
           match s with
           | EmptyString => false
           | String _ s' => any_run s'
           end) s
      else if bool_decide (c = "_"%char) then
        match s with
        | EmptyString => false
        | String _ s' => like_from pattern' s'
        end
      else
        match s with
        | EmptyString => false
        | String d s' => bool_decide (tolower c = tolower d) && like_from pattern' s'
        end
  end.

(** SQLite's [likeFunc] reads both operands with [sqlite3_value_text],
    as C strings: each ends at its first U+0000, if it has one. *)
Fixpoint c_string (s : string) : string :=
  match s with
  | EmptyString => ""
  | String c s' =>
      if bool_decide (c = "000"%char) then "" else String c (c_string s')
  end.

Definition like (s pattern : string) : bool :=
  like_from (c_string pattern) (c_string s).

(** A NULL operand makes LIKE NULL, which WHERE treats as false. *)
Definition like_null (s : option string) (pattern : string) : bool :=
  match s with
  | Some s => like s pattern
  | None => false
  end.

(** The seven columns selected by [search_dgsc] and [get_dgsc_by_id]:
    p.id, p.name, p.description, p.current_owner_id, and the owner's
    u.username, u.first_name, u.last_name (NULL when the LEFT JOIN finds
    no user). *)
Definition dgsc_info : Type :=
  Z * string * option string * option Z *
  option string * option string * option string.

Definition join_owner (st : db) (kv : Z * pendrive_row) : dgsc_info :=
  let u := owner kv.2 ≫= λ o, users st !! o in
  (kv.1, name kv.2, description kv.2, owner kv.2,
   u ≫= username, u ≫= first_name, u ≫= last_name).

(** [... WHERE p.name LIKE ? OR p.description LIKE ?] with both
    parameters [f'%{search_term}%']. *)
Definition search_dgsc (search_term : string) (st : db) : list dgsc_info :=
  let pattern := "%" +:+ search_term +:+ "%" in
  join_owner st <$>
    filter (λ kv : Z * pendrive_row,
              like (name kv.2) pattern || like_null (description kv.2) pattern)
           (scan (pendrives st)).

Definition get_dgsc_by_id (dgsc_id : Z) (st : db) : option dgsc_info :=
  (λ p, join_owner st (dgsc_id, p)) <$> pendrives st !! dgsc_id.

(** One row of [get_pending_requests_for_user]: r.id, r.pendrive_id,
    p.name, r.requester_id, u.username, u.first_name, r.message,
    r.created_at. *)
Definition pending_request_info : Type :=
  Z * Z * string * Z * option string * option string * option string * timestamp.

(** [... FROM requests r JOIN pendrives p ON r.pendrive_id = p.id
     JOIN users u ON r.requester_id = u.user_id
     WHERE r.current_owner_id = ? AND r.status = 'pending']. *)
Definition get_pending_requests_for_user (user_id : Z) (st : db)
    : list pending_request_info :=
  omap (λ kv : Z * request_row,
          if bool_decide (current_owner_id kv.2 = user_id ∧ status kv.2 = "pending")
          then
            p ← pendrives st !! pendrive_id kv.2;
            u ← users st !! requester_id kv.2;
            Some (kv.1, pendrive_id kv.2, name p, requester_id kv.2,
                  username u, first_name u, message kv.2,
                  request_created_at kv.2)
          else None)
       (scan (requests st)).

(** One row of [get_user_requests]: r.id, r.pendrive_id, p.name,
    r.current_owner_id, u.username, u.first_name, r.status, r.created_at. *)
Definition user_request_info : Type :=
  Z * Z * string * Z * option string * option string * string * timestamp.

(** [... FROM requests r JOIN pendrives p ON r.pendrive_id = p.id
     JOIN users u ON r.current_owner_id = u.user_id
     WHERE r.requester_id = ?]: the rows of [get_user_requests], as they
    are before ORDER BY r.created_at DESC arranges them. *)
Definition user_request_rows (user_id : Z) (st : db) : list user_request_info :=
  omap (λ kv : Z * request_row,
          if bool_decide (requester_id kv.2 = user_id)
          then
            p ← pendrives st !! pendrive_id kv.2;
            u ← users st !! current_owner_id kv.2;
            Some (kv.1, pendrive_id kv.2, name p, current_owner_id kv.2,
                  username u, first_name u, status kv.2,
                  request_created_at kv.2)
          else None)
       (scan (requests st)).

(** ** Python strings *)

(** [str.isspace] on one character, for the code points a [string] has. *)
Definition isspace (c : ascii) : bool :=
  let n := nat_of_ascii c in
  bool_decide (9 ≤ n ≤ 13)%nat || bool_decide (28 ≤ n ≤ 32)%nat ||
  bool_decide (n = 133)%nat || bool_decide (n = 160)%nat.

Fixpoint lstrip (s : string) : string :=
  match s with
  | EmptyString => ""
  | String c s' => if isspace c then lstrip s' else s
  end.

Fixpoint rstrip (s : string) : string :=
  match s with
  | EmptyString => ""
  | String c s' =>
      match rstrip s' with
      | EmptyString => if isspace c then "" else String c ""
      | r => String c r
      end
  end.

(** [s.strip()]. *)
Definition strip (s : string) : string := rstrip (lstrip s).

(** [x and x.strip()] as a branch condition, with the branch's value
    [x.strip()]: [None] when the condition is false. *)
Definition and_strip (x : option string) : option string :=
  match x with
  | None => None
  | Some s =>
      if bool_decide (s = "") then None
      else if bool_decide (strip s = "") then None
      else Some (strip s)
  end.

(** [str(n)] for an int. *)
Definition str_int (n : Z) : string := NilZero.string_of_int (Z.to_int n).

(** [f"{x}"] for an int or None. *)
Definition fmt_int (x : option Z) : string :=
  match x with
  | Some n => str_int n
  | None => "None"
  end.

(** [f"{x}"] for a str or None. *)
Definition fmt_str (x : option string) : string :=
  match x with
  | Some s => s
  | None => "None"
  end.

(** ** The display names of [bot.py] *)

(** [search_command], for one row of [search_dgsc]. *)
Definition search_owner_display (row : dgsc_info) : string :=
  let '(_, _, _, owner_id, username, first_name, last_name) := row in
  match and_strip first_name with
  | Some shown => shown
  | None =>
      match and_strip username with
      | Some shown => shown
      | None =>
          match and_strip last_name with
          | Some shown => shown
          | None => "User " +:+ fmt_int owner_id
          end
      end
  end.

(** [list_all_items_command], for one row of [get_all_dgscs] (the seven
    columns above and p.created_at). *)
Definition list_owner_display (row : dgsc_info * timestamp) : string :=
  let '(_, _, _, owner_id, username, first_name, last_name, _) := row in
  match and_strip first_name with
  | Some shown => shown
  | None =>
      match and_strip username with
      | Some shown => shown
      | None =>
          match and_strip last_name with
          | Some shown => shown
          | None => "User " +:+ fmt_int owner_id
          end
      end
  end.

(** [request_item_start], for the row of [get_dgsc_by_id]. *)
Definition request_start_owner_name (dgsc_info : dgsc_info) : string :=
  let '(_, _, _, owner_id, username, first_name, last_name) := dgsc_info in
  match and_strip first_name with
  | Some shown => shown
  | None =>
      match and_strip username with
      | Some shown => shown
      | None =>
          match and_strip last_name with
          | Some shown => shown
          | None => "User " +:+ fmt_int owner_id
          end
      end
  end.

(** [my_requests_command], for one row of [get_user_requests]. *)
Definition my_requests_owner_display (row : user_request_info) : string :=
  let '(_, _, _, owner_id, owner_username, owner_first_name, _, _) := row in
  match and_strip owner_first_name with
  | Some shown => shown
  | None =>
      match and_strip owner_username with
      | Some shown => shown
      | None => "User " +:+ str_int owner_id
      end
  end.

(** [pending_requests_command], for one row of
    [get_pending_requests_for_user]. *)
Definition pending_requester_display (row : pending_request_info) : string :=
  let '(_, _, _, requester, requester_username, requester_first_name, _, _) := row in
  match and_strip requester_first_name with
  | Some shown => shown
  | None =>
      match and_strip requester_username with
      | Some shown => shown
      | None => "User " +:+ str_int requester
      end
  end.

(** [request_item_message]: the requester as named to the owner,
    [first_name or username] put into an f-string. *)
Definition notification_requester_name (first_name username : option string)
    : string :=
  match first_name with
  | Some (String _ _) => fmt_str first_name
  | _ => fmt_str username
  end.

(** ** The conversation handlers that write to the store *)







(** The buttons of [pending_requests_command]:
    [callback_data=f"accept_{req_id}"] and [f"reject_{req_id}"]. *)
Definition accept_button (req_id : Z) : string := "accept_" +:+ str_int req_id.
Definition reject_button (req_id : Z) : string := "reject_" +:+ str_int req_id.

(** [data.startswith(prefix)], with what follows the prefix. *)
Fixpoint after_prefix (prefix data : string) : option string :=
  match prefix, data with
  | EmptyString, _ => Some data
  | String _ _, EmptyString => None
  | String a prefix', String b data' =>
      if bool_decide (a = b) then after_prefix prefix' data' else None
  end.

(** A text without its final newline, if it has one. *)
Fixpoint chop_newline (s : string) : string :=
  match s with
  | EmptyString => ""
  | String c EmptyString => if bool_decide (c = "010"%char) then "" else s
  | String c s' => String c (chop_newline s')
  end.

(** The tail [\d+$] of the pattern of the callback handler: one or more
    digits up to the end of the text, or up to its final newline. *)
Definition digits_to_end (s : string) : option Decimal.uint :=
  match NilEmpty.uint_of_string (chop_newline s) with
  | Some Decimal.Nil => None
  | digits => digits
  end.

(** [handle_callback], behind its filter [^(accept|reject)_\d+$]: [None]
    when the filter does not let [data] through; otherwise the method
    that [data.startswith] selects, called on
    [int(data.split('_')[1])], the value of the digits. *)
Definition handle_callback (data : string) (now : clock) (st : db)
    : option (result bool * db) :=
  match after_prefix "accept_" data with
  | Some rest =>
      (λ digits, accept_request (Z.of_uint digits) now st) <$> digits_to_end rest
  | None =>
      match after_prefix "reject_" data with
      | Some rest =>
          (λ digits, reject_request (Z.of_uint digits) now st) <$> digits_to_end rest
      | None => None
      end
  end.

(** ** The store as a transition system *)

(** A call of one of the mutating methods. *)
Inductive call : Type :=
  | AddUser (user_id : Z) (un fn ln : option string)
  | AddDgsc (n d : string) (owner_id : Z)
  | CreateRequest (dgsc_id requester current_owner : Z) (msg : string)
  | AcceptRequest (request_id : Z)
  | RejectRequest (request_id : Z).

(** The database a call leaves behind, when its statements run at the
    times [now] gives. *)
Definition exec (c : call) (now : clock) (st : db) : db :=
  match c with
  | AddUser user_id un fn ln => (add_user user_id un fn ln now st).2
  | AddDgsc n d owner_id => (add_dgsc n d owner_id now st).2
  | CreateRequest dgsc_id requester current_owner msg =>
      (create_request dgsc_id requester current_owner msg now st).2
  | AcceptRequest request_id => (accept_request request_id now st).2
  | RejectRequest request_id => (reject_request request_id now st).2
  end.

Fixpoint exec_all (cs : list (call * clock)) (st : db) : db :=
  match cs with
  | [] => st
  | (c, now) :: cs' => exec_all cs' (exec c now st)
  end.

(** The databases the program can be in: a fresh file, then any calls. *)
Inductive reachable : db → Prop :=
  | reachable_init : reachable init_database
  | reachable_exec c now st : reachable st → reachable (exec c now st).

(** The same transitions, case by case: what each call does to the
    database when its statements run at the times [now] gives. *)
Inductive step (now : clock) (st : db) : call → db → Prop :=
  | step_add_user user_id un fn ln :
      in_int64 user_id →
      step now st (AddUser user_id un fn ln)
        (Db (<[user_id := UserRow un fn ln (early now)]> (users st)) (pendrives st)
            (requests st) (transactions st)
            (seq_pendrives st) (seq_requests st) (seq_transactions st))
  | step_add_user_overflow user_id un fn ln :
      ¬ in_int64 user_id →
      step now st (AddUser user_id un fn ln) st
  | step_add_dgsc n d owner_id :
      (∀ id p, pendrives st !! id = Some p → name p ≠ n) →
      step now st (AddDgsc n d owner_id)
        (Db (users st)
            (<[next_rowid (pendrives st) (seq_pendrives st) :=
                 PendriveRow n (Some d) (Some owner_id) (early now)]> (pendrives st))
            (requests st)
            (<[next_rowid (transactions st) (seq_transactions st) :=
                 TransactionRow (next_rowid (pendrives st) (seq_pendrives st))
                                None owner_id "initial_assignment" (late now)]>
               (transactions st))
            (next_rowid (pendrives st) (seq_pendrives st)) (seq_requests st)
            (next_rowid (transactions st) (seq_transactions st)))
  | step_add_dgsc_duplicate n d owner_id id p :
      pendrives st !! id = Some p → name p = n →
      step now st (AddDgsc n d owner_id) st
  | step_create_request dgsc_id requester current_owner msg :
      in_int64 dgsc_id → in_int64 requester → in_int64 current_owner →
      step now st (CreateRequest dgsc_id requester current_owner msg)
        (Db (users st) (pendrives st)
            (<[next_rowid (requests st) (seq_requests st) :=
                 RequestRow dgsc_id requester current_owner "pending"
                            (Some msg) (early now) None]> (requests st))
            (transactions st)
            (seq_pendrives st) (next_rowid (requests st) (seq_requests st))
            (seq_transactions st))
  | step_create_request_overflow dgsc_id requester current_owner msg :
      ¬ (in_int64 dgsc_id ∧ in_int64 requester ∧ in_int64 current_owner) →
      step now st (CreateRequest dgsc_id requester current_owner msg) st
  | step_accept request_id r :
      requests st !! request_id = Some r → status r = "pending" →
      step now st (AcceptRequest request_id)
        (Db (users st)
            (alter (set_owner (Some (requester_id r))) (pendrive_id r)
                   (pendrives st))
            (<[request_id := resolve "accepted" (early now) r]> (requests st))
            (<[next_rowid (transactions st) (seq_transactions st) :=
                 TransactionRow (pendrive_id r) (Some (current_owner_id r))
                                (requester_id r) "transfer" (late now)]>
               (transactions st))
            (seq_pendrives st) (seq_requests st)
            (next_rowid (transactions st) (seq_transactions st)))
  | step_accept_refused request_id :
      (∀ r, requests st !! request_id = Some r → status r ≠ "pending") →
      step now st (AcceptRequest request_id) st
  | step_reject request_id r :
      requests st !! request_id = Some r → status r = "pending" →
      step now st (RejectRequest request_id)
        (Db (users st) (pendrives st)
            (<[request_id := resolve "rejected" (early now) r]> (requests st))
            (transactions st)
            (seq_pendrives st) (seq_requests st) (seq_transactions st))
  | step_reject_refused request_id :
      (∀ r, requests st !! request_id = Some r → status r ≠ "pending") →
      step now st (RejectRequest request_id) st.

(** Row [tid] is the last row of the log that is about item [id]. *)
Definition last_transaction (log : gmap Z transaction_row) (id tid : Z)
    (t : transaction_row) : Prop :=
  log !! tid = Some t ∧ t_pendrive_id t = id ∧
  ∀ tid' t', log !! tid' = Some t' → t_pendrive_id t' = id → tid' ≤ tid.

(** A text with A-Z folded to a-z, as LIKE compares it. *)
Fixpoint fold_case (s : string) : string :=
  match s with
  | EmptyString => ""
  | String c s' => String (tolower c) (fold_case s')
  end.

(** ** The specification's wording, for comparison *)

(** Display-name policy as the specification words it: given name if
    non-empty after trimming, else handle, else family name, else
    "User {id}". *)
Definition spec_display_name (id : Z) (handle given family : option string)
    : string :=
  match and_strip given with
  | Some shown => shown
  | None =>
      match and_strip handle with
      | Some shown => shown
      | None =>
          match and_strip family with
          | Some shown => shown
          | None => "User " +:+ str_int id
          end
      end
  end.

(** [t] is a prefix of [s], letters compared without regard to case. *)
Fixpoint ci_prefix (t s : string) : bool :=
  match t, s with
  | EmptyString, _ => true
  | String _ _, EmptyString => false
  | String a t', String b s' => bool_decide (tolower a = tolower b) && ci_prefix t' s'
  end.

(** [t] is a case-insensitive substring of [s]. *)
Fixpoint ci_substring (t s : string) : bool :=
  ci_prefix t s ||
  match s with
  | EmptyString => false
  | String _ s' => ci_substring t s'
  end.

(** The search the specification describes: the term is a
    case-insensitive substring of the name or of the description. *)
Definition spec_matches (term : string) (p : pendrive_row) : bool :=
  ci_substring term (name p) ||
  match description p with
  | Some d => ci_substring term d
  | None => false
  end.

(** A search term that LIKE reads literally. *)
Definition wildcard_free (t : string) : Prop :=
  Forall (λ c : ascii, c ≠ "%"%char ∧ c ≠ "_"%char) (list_ascii_of_string t).

(** A text without U+0000: LIKE reads all of it. *)
Definition nul_free (t : string) : Prop :=
  Forall (λ c : ascii, c ≠ "000"%char) (list_ascii_of_string t).

(** No name and no description in the table holds U+0000. *)
Definition texts_nul_free (st : db) : Prop :=
  ∀ id p, pendrives st !! id = Some p →
    nul_free (name p) ∧ ∀ d, description p = Some d → nul_free d.

(** The length in bytes of a text as SQLite stores it, in UTF-8. *)
Fixpoint utf8_length (s : string) : Z :=
  match s with
  | EmptyString => 0
  | String c s' =>
      (if bool_decide (nat_of_ascii c < 128)%nat then 1 else 2) + utf8_length s'
  end.

(** ** Sample databases *)

(** User 1 has registered "Drive A". *)
Definition one_drive : db :=
  exec (AddDgsc "Drive A" "" 1) "2024-01-01 10:00:00" init_database.

(** User 2 has then asked user 1 for it: request 1, pending. *)
Definition one_request : db :=
  exec (CreateRequest 1 2 1 "please") "2024-01-02 09:00:00" one_drive.

(** User 1 asks for the drive they hold (request 1), user 2 asks for it
    too (request 2), and request 2 is accepted: user 2 holds the drive
    while request 1 is still pending. *)
Definition stale_self_request : db :=
  exec_all [(CreateRequest 1 1 1 "", at_time "2024-01-02 09:00:00");
            (CreateRequest 1 2 1 "", at_time "2024-01-02 09:05:00");
            (AcceptRequest 2, at_time "2024-01-02 09:10:00")] one_drive.

(** User 1 asks for the drive they hold: request 1, pending, requester
    and snapshotted owner both user 1, who still holds the drive. *)
Definition self_request : db :=
  exec (CreateRequest 1 1 1 "") "2024-01-02 09:00:00" one_drive.

(** Three items of user 1: "USB Drive", "Box" described as "spare
    drive", and "Keyboard". *)
Definition three_items : db :=
  exec_all [(AddDgsc "USB Drive" "" 1, at_time "2024-01-01 10:00:00");
            (AddDgsc "Box" "spare drive" 1, at_time "2024-01-01 10:01:00");
            (AddDgsc "Keyboard" "" 1, at_time "2024-01-01 10:02:00")] init_database.

(** User 7 has no handle, an empty given name and the family name
    "Smith"; user 2 is "bob".  Each holds a drive and has asked for the
    other's. *)
Definition family_name_only : db :=
  exec_all [(AddUser 7 None (Some "") (Some "Smith"), at_time "2024-01-01 09:00:00");
            (AddUser 2 (Some "bob") (Some "Bob") None, at_time "2024-01-01 09:01:00");
            (AddDgsc "Drive A" "" 7, at_time "2024-01-01 10:00:00");
            (AddDgsc "Drive B" "" 2, at_time "2024-01-01 10:01:00");
            (CreateRequest 1 2 7 "", at_time "2024-01-02 09:00:00");
            (CreateRequest 2 7 2 "", at_time "2024-01-02 09:05:00")] init_database.

(** * Properties *)

(** ** Tables: rowids and scans *)

Section tables.
Context {A : Type}.
Implicit Types (m : gmap Z A) (k : Z) (v : A).

#[local] Instance rowid_le_trans : Transitive (@rowid_le A).
Proof. intros x y z. unfold rowid_le. lia. Qed.

#[local] Instance rowid_le_total : Total (@rowid_le A).
Proof. intros x y. unfold rowid_le. lia. Qed.

Lemma max_rowid_ge m k v : m !! k = Some v → k ≤ max_rowid m.
Proof.
  intros Hk. unfold max_rowid.
  assert (Hin : k ∈ (map_to_list m).*1).
  { apply list_elem_of_fmap. exists (k, v). split; [done |].
    by apply elem_of_map_to_list. }
  clear Hk. revert Hin. generalize ((map_to_list m).*1). intros l Hin.
  induction Hin as [k l | k j l _ IH]; simpl; lia.
Qed.

Lemma next_rowid_gt m seq k v : m !! k = Some v → k < next_rowid m seq.
Proof. intros Hk%max_rowid_ge. unfold next_rowid. lia. Qed.

Lemma next_rowid_fresh m seq : m !! next_rowid m seq = None.
Proof.
  destruct (m !! next_rowid m seq) as [v |] eqn:E; [| done].
  apply (next_rowid_gt m seq) in E. lia.
Qed.

Lemma scan_perm m : scan m ≡ₚ map_to_list m.
Proof. apply merge_sort_Permutation. Qed.

Lemma elem_of_scan m k v : (k, v) ∈ scan m ↔ m !! k = Some v.
Proof. rewrite scan_perm. apply elem_of_map_to_list. Qed.

Lemma scan_sorted m : StronglySorted rowid_le (scan m).
Proof. apply StronglySorted_merge_sort; apply _. Qed.

(** A row inserted above every rowid in use comes last in a scan. *)
Lemma scan_insert_last m k v :
  (∀ j w, m !! j = Some w → j < k) →
  scan (<[k := v]> m) = scan m ++ [(k, v)].
Proof.
  intros Hlt.
  assert (Hfresh : m !! k = None).
  { destruct (m !! k) as [w |] eqn:E; [| done]. apply Hlt in E. lia. }
  apply (StronglySorted_unique_strong rowid_le).
  - intros [j1 w1] [j2 w2] H1 H2 Hle1 Hle2. unfold rowid_le in *. simpl in *.
    assert (j1 = j2) as -> by lia.
    apply elem_of_scan in H1.
    apply elem_of_app in H2 as [H2 | H2].
    + apply elem_of_scan in H2.
      rewrite lookup_insert_ne in H1 by (intros ->; congruence).
      congruence.
    + apply list_elem_of_singleton in H2. simplify_eq.
      rewrite lookup_insert_eq in H1. congruence.
  - apply scan_sorted.
  - apply StronglySorted_app_2; [| apply scan_sorted | repeat constructor].
    intros [j w] x2 Hj%elem_of_scan%Hlt ->%list_elem_of_singleton.
    unfold rowid_le. simpl. lia.
  - rewrite !scan_perm, map_to_list_insert by done.
    by rewrite Permutation_cons_append.
Qed.
End tables.

(** ** The statement layer *)

Lemma name_taken_true n (m : gmap Z pendrive_row) :
  name_taken n m = true ↔ ∃ id p, m !! id = Some p ∧ name p = n.
Proof.
  unfold name_taken. rewrite bool_decide_eq_true, Exists_exists. split.
  - intros [[id p] [Hin Hn]]. exists id, p. by apply elem_of_map_to_list in Hin.
  - intros (id & p & Hin & Hn). exists (id, p). by apply elem_of_map_to_list in Hin.
Qed.

Lemma name_taken_false n (m : gmap Z pendrive_row) :
  name_taken n m = false ↔ ∀ id p, m !! id = Some p → name p ≠ n.
Proof.
  rewrite <- not_true_iff_false, name_taken_true. split.
  - intros Hno id p Hin Hn. apply Hno. eauto.
  - intros Hall (id & p & Hin & Hn). by apply (Hall id p).
Qed.

Lemma insert_pendrive_taken n d o now st :
  name_taken n (pendrives st) = true →
  insert_pendrive (Some n) d o now st = Raised IntegrityError.
Proof. intros H. unfold insert_pendrive. by rewrite H. Qed.

Lemma insert_pendrive_free n d o now st :
  name_taken n (pendrives st) = false →
  insert_pendrive (Some n) d o now st =
    Done (next_rowid (pendrives st) (seq_pendrives st),
          Db (users st)
             (<[next_rowid (pendrives st) (seq_pendrives st) :=
                  PendriveRow n d o now]> (pendrives st))
             (requests st) (transactions st)
             (next_rowid (pendrives st) (seq_pendrives st))
             (seq_requests st) (seq_transactions st)).
Proof. intros H. unfold insert_pendrive. by rewrite H. Qed.

(** ** Registering an item *)





(** ** Creating a request *)

(** C9, as stated, fails: an id of 2^63 cannot be bound to the INSERT,
    [create_request] raises [OverflowError] and no row is stored. *)
Lemma create_request_out_of_range :
  create_request 9223372036854775808 1 1 "" "2024-01-02 09:00:00" init_database
  = (Raised OverflowError, init_database).
Proof. by vm_compute. Qed.

(** C9, amended.  [create_request] checks nothing but that its three
    integers fit 64 bits.  When they do, whatever the item id (existing
    or not) and whoever the requester and the owner (equal or not), the
    database it leaves is the given one with one request row added under
    a rowid not in use, pending, unresolved, carrying exactly the
    arguments; that rowid is returned.  When one of them does not, it
    raises [OverflowError] and the database is the one it was given. *)
Theorem create_request_spec dgsc_id requester current_owner msg now st :
  (in_int64 dgsc_id → in_int64 requester → in_int64 current_owner →
   ∃ request_id,
     requests st !! request_id = None ∧
     create_request dgsc_id requester current_owner msg now st =
       (Done request_id,
        Db (users st) (pendrives st)
           (<[request_id := RequestRow dgsc_id requester current_owner
                                       "pending" (Some msg) (early now) None]>
              (requests st))
           (transactions st)
           (seq_pendrives st) request_id (seq_transactions st))) ∧
  (¬ (in_int64 dgsc_id ∧ in_int64 requester ∧ in_int64 current_owner) →
   create_request dgsc_id requester current_owner msg now st =
     (Raised OverflowError, st)).
Proof.
  split.
  - intros Hd Hr Ho. exists (next_rowid (requests st) (seq_requests st)).
    split; [apply next_rowid_fresh |].
    unfold create_request, commit, insert_request, fits.
    by rewrite !bool_decide_true.
  - intros Hout. unfold create_request, commit, insert_request, fits.
    destruct (bool_decide (in_int64 dgsc_id)) eqn:Hd;
      destruct (bool_decide (in_int64 requester)) eqn:Hr;
      destruct (bool_decide (in_int64 current_owner)) eqn:Ho; try done.
    apply bool_decide_eq_true in Hd, Hr, Ho. by destruct Hout.
Qed.

(** Neither a missing item nor a requester who is the owner stops it;
    an id of 2^63 does. *)
Lemma create_request_spec_witness :
  pendrives init_database !! 42 = None ∧
  (∃ request_id,
     requests init_database !! request_id = None ∧
     create_request 42 5 5 "" "2024-01-01 10:00:00" init_database =
       (Done request_id,
        Db ∅ ∅ (<[request_id := RequestRow 42 5 5 "pending" (Some "")
                                           "2024-01-01 10:00:00" None]> ∅)
           ∅ 0 request_id 0)) ∧
  create_request 1 5 9223372036854775808 "" "2024-01-01 10:00:00" one_drive =
    (Raised OverflowError, one_drive).
Proof.
  split; [reflexivity |]. split.
  - apply (create_request_spec 42 5 5 "" "2024-01-01 10:00:00" init_database);
      unfold in_int64; lia.
  - apply (create_request_spec 1 5 9223372036854775808 ""
             "2024-01-01 10:00:00" one_drive).
    unfold in_int64. lia.
Defined.

(** The least and the greatest integer that can be bound, and their
    neighbours. *)
Example create_request_bounds :
  (create_request (-9223372036854775808) 9223372036854775807 0 ""
                  "2024-01-01 10:00:00" init_database).1 = Done 1 ∧
  (create_request (-9223372036854775809) 1 1 ""
                  "2024-01-01 10:00:00" init_database).1 = Raised OverflowError ∧
  (create_request 1 9223372036854775808 1 ""
                  "2024-01-01 10:00:00" init_database).1 = Raised OverflowError.
Proof. by vm_compute. Qed.

(** ** Resolving a request *)

Lemma alter_lookup {A : Type} (f : A → A) (m : gmap Z A) i x :
  m !! i = Some x → alter f i m = <[i := f x]> m.
Proof.
  intros Hi. apply map_eq. intros j. destruct (decide (i = j)) as [-> |].
  - by rewrite lookup_alter_eq, lookup_insert_eq, Hi.
  - by rewrite lookup_alter_ne, lookup_insert_ne.
Qed.

Lemma select_pending_request_found request_id r st :
  requests st !! request_id = Some r →
  status r = "pending" →
  select_pending_request request_id st =
    Done (Some (pendrive_id r, requester_id r, current_owner_id r), st).
Proof.
  intros Hr Hs. unfold select_pending_request.
  by rewrite Hr, bool_decide_true.
Qed.

Lemma select_pending_request_resolved request_id r st :
  requests st !! request_id = Some r →
  status r ≠ "pending" →
  select_pending_request request_id st = Done (None, st).
Proof.
  intros Hr Hs. unfold select_pending_request.
  by rewrite Hr, bool_decide_false.
Qed.

Lemma select_pending_request_absent request_id st :
  requests st !! request_id = None →
  select_pending_request request_id st =
    if bool_decide (in_int64 request_id) then Done (None, st)
    else Raised OverflowError.
Proof. intros Hr. unfold select_pending_request. by rewrite Hr. Qed.

(** On a database whose request ids fit 64 bits, as every rowid of
    SQLite does, these are the statements that first bind the id and
    then look for the row. *)
Lemma select_pending_request_bind_first request_id st :
  (∀ id r, requests st !! id = Some r → in_int64 id) →
  select_pending_request request_id st =
    if bool_decide (in_int64 request_id)
    then Done (r ← requests st !! request_id;
               if bool_decide (status r = "pending")
               then Some (pendrive_id r, requester_id r, current_owner_id r)
               else None, st)
    else Raised OverflowError.
Proof.
  intros Hfit. unfold select_pending_request.
  destruct (requests st !! request_id) as [r |] eqn:Hr; [| done].
  by rewrite (bool_decide_true _ (Hfit _ _ Hr)).
Qed.

Lemma update_request_rejected_bind_first request_id now st :
  (∀ id r, requests st !! id = Some r → in_int64 id) →
  update_request_rejected request_id now st =
    if bool_decide (in_int64 request_id)
    then match requests st !! request_id with
         | Some r =>
             if bool_decide (status r = "pending")
             then Done (1,
                        Db (users st) (pendrives st)
                           (<[request_id := resolve "rejected" now r]>
                              (requests st))
                           (transactions st)
                           (seq_pendrives st) (seq_requests st)
                           (seq_transactions st))
             else Done (0, st)
         | None => Done (0, st)
         end
    else Raised OverflowError.
Proof.
  intros Hfit. unfold update_request_rejected.
  destruct (requests st !! request_id) as [r |] eqn:Hr; [| done].
  by rewrite (bool_decide_true _ (Hfit _ _ Hr)).
Qed.

(** An accepted request: what [accept_request] leaves behind. *)
Lemma accept_request_pending request_id r now st :
  requests st !! request_id = Some r →
  status r = "pending" →
  accept_request request_id now st =
    (Done true,
     Db (users st)
        (alter (set_owner (Some (requester_id r))) (pendrive_id r) (pendrives st))
        (<[request_id := resolve "accepted" (early now) r]> (requests st))
        (<[next_rowid (transactions st) (seq_transactions st) :=
             TransactionRow (pendrive_id r) (Some (current_owner_id r))
                            (requester_id r) "transfer" (late now)]>
           (transactions st))
        (seq_pendrives st) (seq_requests st)
        (next_rowid (transactions st) (seq_transactions st))).
Proof.
  intros Hr Hs. unfold accept_request, commit, mbind, sql_bind.
  rewrite (select_pending_request_found _ r) by done. simpl.
  by rewrite (alter_lookup _ _ _ r).
Qed.

Lemma accept_request_resolved request_id r now st :
  requests st !! request_id = Some r →
  status r ≠ "pending" →
  accept_request request_id now st = (Done false, st).
Proof.
  intros Hr Hs. unfold accept_request, commit, mbind, sql_bind.
  by rewrite (select_pending_request_resolved _ r).
Qed.

Lemma accept_request_absent request_id now st :
  requests st !! request_id = None →
  accept_request request_id now st =
    (if bool_decide (in_int64 request_id) then Done false
     else Raised OverflowError, st).
Proof.
  intros Hr. unfold accept_request, commit, mbind, sql_bind.
  rewrite select_pending_request_absent by done.
  by destruct (bool_decide (in_int64 request_id)).
Qed.

Lemma accept_request_not_pending request_id now st :
  in_int64 request_id →
  (∀ r, requests st !! request_id = Some r → status r ≠ "pending") →
  accept_request request_id now st = (Done false, st).
Proof.
  intros Hin Hno. destruct (requests st !! request_id) as [r |] eqn:Hr.
  - apply (accept_request_resolved _ r); auto.
  - rewrite accept_request_absent by done. by rewrite bool_decide_true.
Qed.

Lemma reject_request_pending request_id r now st :
  requests st !! request_id = Some r →
  status r = "pending" →
  reject_request request_id now st =
    (Done true,
     Db (users st) (pendrives st)
        (<[request_id := resolve "rejected" (early now) r]> (requests st))
        (transactions st)
        (seq_pendrives st) (seq_requests st) (seq_transactions st)).
Proof.
  intros Hr Hs.
  unfold reject_request, commit, mbind, sql_bind, update_request_rejected.
  by rewrite Hr, bool_decide_true.
Qed.

Lemma reject_request_resolved request_id r now st :
  requests st !! request_id = Some r →
  status r ≠ "pending" →
  reject_request request_id now st = (Done false, st).
Proof.
  intros Hr Hs.
  unfold reject_request, commit, mbind, sql_bind, update_request_rejected.
  by rewrite Hr, bool_decide_false.
Qed.

Lemma reject_request_absent request_id now st :
  requests st !! request_id = None →
  reject_request request_id now st =
    (if bool_decide (in_int64 request_id) then Done false
     else Raised OverflowError, st).
Proof.
  intros Hr.
  unfold reject_request, commit, mbind, sql_bind, update_request_rejected.
  rewrite Hr. by destruct (bool_decide (in_int64 request_id)).
Qed.

Lemma reject_request_not_pending request_id now st :
  in_int64 request_id →
  (∀ r, requests st !! request_id = Some r → status r ≠ "pending") →
  reject_request request_id now st = (Done false, st).
Proof.
  intros Hin Hno. destruct (requests st !! request_id) as [r |] eqn:Hr.
  - apply (reject_request_resolved _ r); auto.
  - rewrite reject_request_absent by done. by rewrite bool_decide_true.
Qed.

(** C1, as stated, fails: 2^63 is the id of no request, yet accepting it
    does not return False; the SELECT cannot bind it and
    [accept_request] raises [OverflowError]. *)
Lemma accept_request_out_of_range :
  requests one_request !! 9223372036854775808 = None ∧
  accept_request 9223372036854775808 "2024-01-03 08:00:00" one_request
  = (Raised OverflowError, one_request).
Proof. by vm_compute. Qed.

(** C1, amended.  On a pending request [accept_request] returns True; it
    makes the requester the owner of the request's item and leaves every
    other column of that item and every other item as they were, marks
    the request accepted with the time of the UPDATE as its resolution
    time, and adds one transaction row, a transfer from the owner
    snapshotted in the request to the requester.  On an id that fits 64
    bits and is that of no request, or of a request that is not pending,
    it returns False and the database is the one it was given; on an id
    that does not fit it raises [OverflowError], the database again being
    the one it was given.  Hence of two calls on one id the first
    transfers and the second returns False, the requester still owning
    the item. *)
Theorem accept_request_spec request_id now st :
  (∀ r, requests st !! request_id = Some r → status r = "pending" →
     ∃ tid st',
       accept_request request_id now st = (Done true, st') ∧
       users st' = users st ∧
       (∀ p, pendrives st !! pendrive_id r = Some p →
             pendrives st' !! pendrive_id r =
               Some (PendriveRow (name p) (description p)
                                 (Some (requester_id r))
                                 (pendrive_created_at p))) ∧
       (pendrives st !! pendrive_id r = None →
        pendrives st' !! pendrive_id r = None) ∧
       (∀ id, id ≠ pendrive_id r → pendrives st' !! id = pendrives st !! id) ∧
       requests st' =
         <[request_id := RequestRow (pendrive_id r) (requester_id r)
                                    (current_owner_id r) "accepted" (message r)
                                    (request_created_at r) (Some (early now))]>
           (requests st) ∧
       transactions st !! tid = None ∧
       transactions st' =
         <[tid := TransactionRow (pendrive_id r) (Some (current_owner_id r))
                                 (requester_id r) "transfer" (late now)]>
           (transactions st)) ∧
  (in_int64 request_id →
   (∀ r, requests st !! request_id = Some r → status r ≠ "pending") →
   accept_request request_id now st = (Done false, st)) ∧
  (¬ in_int64 request_id →
   requests st !! request_id = None →
   accept_request request_id now st = (Raised OverflowError, st)) ∧
  (∀ r now', requests st !! request_id = Some r → status r = "pending" →
     ∃ st',
       accept_request request_id now st = (Done true, st') ∧
       accept_request request_id now' st' = (Done false, st') ∧
       ∀ p, pendrives st !! pendrive_id r = Some p →
            pendrives st' !! pendrive_id r =
              Some (PendriveRow (name p) (description p)
                                (Some (requester_id r))
                                (pendrive_created_at p))).
Proof.
  split; [| split; [| split]].
  - intros r Hr Hs. eexists _, _. split; [by apply accept_request_pending |].
    cbn [users pendrives requests transactions].
    split; [done |].
    split; [intros p Hp; by rewrite lookup_alter_eq, Hp |].
    split; [intros Hp; by rewrite lookup_alter_eq, Hp |].
    split; [intros id Hne; by rewrite lookup_alter_ne |].
    split; [done |].
    split; [apply next_rowid_fresh | done].
  - apply accept_request_not_pending.
  - intros Hout Hr. rewrite accept_request_absent by done.
    by rewrite bool_decide_false.
  - intros r now' Hr Hs. eexists. split; [by apply accept_request_pending |].
    split.
    + apply (accept_request_resolved _ (resolve "accepted" (early now) r)).
      * cbn [requests]. by rewrite lookup_insert_eq.
      * done.
    + intros p Hp. cbn [pendrives]. by rewrite lookup_alter_eq, Hp.
Qed.

Lemma accept_request_spec_witness :
  (∃ tid st',
     accept_request 1 (Clock "2024-01-03 08:00:00" "2024-01-03 08:00:01")
                    one_request = (Done true, st') ∧
     pendrives st' !! 1 =
       Some (PendriveRow "Drive A" (Some "") (Some 2) "2024-01-01 10:00:00") ∧
     requests st' !! 1 =
       Some (RequestRow 1 2 1 "accepted" (Some "please") "2024-01-02 09:00:00"
                        (Some "2024-01-03 08:00:00")) ∧
     transactions st' !! tid =
       Some (TransactionRow 1 (Some 1) 2 "transfer" "2024-01-03 08:00:01") ∧
     accept_request 1 "2024-01-03 08:05:00" st' = (Done false, st')) ∧
  accept_request 7 "2024-01-03 08:00:00" one_request = (Done false, one_request) ∧
  accept_request 9223372036854775808 "2024-01-03 08:00:00" one_request
  = (Raised OverflowError, one_request).
Proof.
  set (now := Clock "2024-01-03 08:00:00" "2024-01-03 08:00:01").
  set (r := RequestRow 1 2 1 "pending" (Some "please") "2024-01-02 09:00:00" None).
  assert (Hr : requests one_request !! 1 = Some r) by (vm_compute; reflexivity).
  split; [| split].
  - destruct (accept_request_spec 1 now one_request)
      as (Hyes & _ & _ & Htwice).
    destruct (Hyes r Hr eq_refl)
      as (tid & st' & Hret & _ & Hitem & _ & _ & Hreq & _ & Hlog).
    destruct (Htwice r (at_time "2024-01-03 08:05:00") Hr eq_refl)
      as (st'' & Hret' & Hagain & _).
    rewrite Hret in Hret'. injection Hret' as <-.
    exists tid, st'. split; [exact Hret |].
    split; [apply (Hitem (PendriveRow "Drive A" (Some "") (Some 1)
                                      "2024-01-01 10:00:00"));
            vm_compute; reflexivity |].
    split; [rewrite Hreq; apply lookup_insert_eq |].
    split; [rewrite Hlog; apply lookup_insert_eq | exact Hagain].
  - apply (accept_request_spec 7 "2024-01-03 08:00:00" one_request).
    + unfold in_int64. lia.
    + intros r' Hr'. vm_compute in Hr'. discriminate Hr'.
  - apply (accept_request_spec 9223372036854775808 "2024-01-03 08:00:00"
             one_request).
    + unfold in_int64. lia.
    + vm_compute. reflexivity.
Defined.

(** C8, as stated, fails: 2^63 is the id of no request, yet rejecting it
    does not return False; the UPDATE cannot bind it and
    [reject_request] raises [OverflowError]. *)
Lemma reject_request_out_of_range :
  requests one_request !! 9223372036854775808 = None ∧
  reject_request 9223372036854775808 "2024-01-03 08:00:00" one_request
  = (Raised OverflowError, one_request).
Proof. by vm_compute. Qed.

(** C8, amended.  [reject_request] marks the request rejected, with the
    time of the UPDATE as its resolution time and its other columns as
    they were, and returns True when the request exists and is pending,
    and only then; otherwise it returns False when the id fits 64 bits
    and raises [OverflowError] when it does not, and the database is the
    one it was given.  In every case items, their owners and the
    transaction log stay as they were, and so does every request but the
    one named. *)
Theorem reject_request_spec request_id now st :
  (∀ r, requests st !! request_id = Some r → status r = "pending" →
     reject_request request_id now st =
       (Done true,
        Db (users st) (pendrives st)
           (<[request_id := RequestRow (pendrive_id r) (requester_id r)
                                       (current_owner_id r) "rejected"
                                       (message r) (request_created_at r)
                                       (Some (early now))]> (requests st))
           (transactions st)
           (seq_pendrives st) (seq_requests st) (seq_transactions st))) ∧
  (in_int64 request_id →
   (∀ r, requests st !! request_id = Some r → status r ≠ "pending") →
   reject_request request_id now st = (Done false, st)) ∧
  (¬ in_int64 request_id →
   requests st !! request_id = None →
   reject_request request_id now st = (Raised OverflowError, st)) ∧
  ((reject_request request_id now st).1 = Done true ↔
     ∃ r, requests st !! request_id = Some r ∧ status r = "pending") ∧
  pendrives (reject_request request_id now st).2 = pendrives st ∧
  transactions (reject_request request_id now st).2 = transactions st ∧
  ∀ id, id ≠ request_id →
        requests (reject_request request_id now st).2 !! id = requests st !! id.
Proof.
  split; [intros r; apply reject_request_pending |].
  split; [apply reject_request_not_pending |].
  split.
  { intros Hout Hr. rewrite reject_request_absent by done.
    by rewrite bool_decide_false. }
  destruct (requests st !! request_id) as [r |] eqn:Hr.
  - destruct (decide (status r = "pending")) as [Hs | Hs].
    + rewrite (reject_request_pending _ r) by done. simpl.
      split; [split; [by eauto | done] |].
      split; [done |]. split; [done |].
      intros id Hne. by rewrite lookup_insert_ne.
    + rewrite (reject_request_resolved _ r) by done. simpl.
      split; [split; [done | by intros (r' & [= <-] & ?)] |]. done.
  - rewrite reject_request_absent by done. simpl.
    split; [| done]. split; [| by intros (r' & ? & _)].
    by destruct (bool_decide (in_int64 request_id)).
Qed.

Lemma reject_request_spec_witness :
  reject_request 1 "2024-01-03 08:00:00" one_request =
    (Done true,
     Db (users one_request) (pendrives one_request)
        (<[1 := RequestRow 1 2 1 "rejected" (Some "please")
                           "2024-01-02 09:00:00" (Some "2024-01-03 08:00:00")]>
           (requests one_request))
        (transactions one_request)
        (seq_pendrives one_request) (seq_requests one_request)
        (seq_transactions one_request)) ∧
  reject_request 7 "2024-01-03 08:00:00" one_request = (Done false, one_request) ∧
  reject_request 9223372036854775808 "2024-01-03 08:00:00" one_request
  = (Raised OverflowError, one_request).
Proof.
  destruct (reject_request_spec 1 "2024-01-03 08:00:00" one_request)
    as (Hyes & _).
  destruct (reject_request_spec 7 "2024-01-03 08:00:00" one_request)
    as (_ & Hno & _).
  destruct (reject_request_spec 9223372036854775808 "2024-01-03 08:00:00"
              one_request) as (_ & _ & Hout & _).
  split; [| split].
  - apply (Hyes (RequestRow 1 2 1 "pending" (Some "please")
                            "2024-01-02 09:00:00" None)).
    + vm_compute. reflexivity.
    + reflexivity.
  - apply Hno; [unfold in_int64; lia |].
    intros r Hr. vm_compute in Hr. discriminate Hr.
  - apply Hout; [unfold in_int64; lia | vm_compute; reflexivity].
Defined.

(** ** Self-requests *)

(** C10, as stated, fails.  In [stale_self_request] request 1 is pending
    with user 1 both requester and snapshotted owner, while the drive has
    since passed to user 2; accepting request 1 returns True and takes the
    drive from user 2 back to user 1. *)
Lemma accept_self_request_moves_item :
  requests stale_self_request !! 1 =
    Some (RequestRow 1 1 1 "pending" (Some "") "2024-01-02 09:00:00" None) ∧
  owner <$> pendrives stale_self_request !! 1 = Some (Some 2) ∧
  (accept_request 1 "2024-01-03 08:00:00" stale_self_request).1 = Done true ∧
  owner <$> pendrives (accept_request 1 "2024-01-03 08:00:00"
                                      stale_self_request).2 !! 1
    = Some (Some 1).
Proof. by vm_compute. Qed.

(** C10, amended.  A pending request whose requester is its snapshotted
    owner is accepted like any other: True is returned, the request is
    marked accepted with the time of the UPDATE as its resolution time,
    the item's owner is set to the requester, and one transfer row is
    added whose from-user is its to-user.  The items table is left as it
    was when the item is still held by the snapshotted owner. *)
Theorem accept_self_request request_id r now st :
  requests st !! request_id = Some r →
  status r = "pending" →
  requester_id r = current_owner_id r →
  ∃ tid st',
    accept_request request_id now st = (Done true, st') ∧
    requests st' !! request_id =
      Some (RequestRow (pendrive_id r) (requester_id r) (current_owner_id r)
                       "accepted" (message r) (request_created_at r)
                       (Some (early now))) ∧
    (∀ p, pendrives st !! pendrive_id r = Some p →
          pendrives st' !! pendrive_id r =
            Some (PendriveRow (name p) (description p) (Some (requester_id r))
                              (pendrive_created_at p))) ∧
    transactions st !! tid = None ∧
    transactions st' =
      <[tid := TransactionRow (pendrive_id r) (Some (requester_id r))
                              (requester_id r) "transfer" (late now)]>
        (transactions st) ∧
    ((∀ p, pendrives st !! pendrive_id r = Some p →
           owner p = Some (current_owner_id r)) →
     pendrives st' = pendrives st).
Proof.
  intros Hr Hs Hself. eexists _, _.
  split; [by apply accept_request_pending |].
  cbn [users pendrives requests transactions].
  split; [by rewrite lookup_insert_eq |].
  split; [intros p Hp; by rewrite lookup_alter_eq, Hp |].
  split; [apply next_rowid_fresh |].
  split; [by rewrite Hself |].
  intros Hheld. apply map_eq. intros id.
  destruct (decide (pendrive_id r = id)) as [<- |];
    [| by rewrite lookup_alter_ne].
  rewrite lookup_alter_eq.
  destruct (pendrives st !! pendrive_id r) as [p |] eqn:Hp; [| done].
  simpl. f_equal. specialize (Hheld p eq_refl).
  destruct p as [n d o c]. simpl in *. unfold set_owner. simpl. congruence.
Qed.

Lemma accept_self_request_witness :
  ∃ tid st',
    accept_request 1 "2024-01-03 08:00:00" self_request = (Done true, st') ∧
    requests st' !! 1 =
      Some (RequestRow 1 1 1 "accepted" (Some "") "2024-01-02 09:00:00"
                       (Some "2024-01-03 08:00:00")) ∧
    transactions st' !! tid =
      Some (TransactionRow 1 (Some 1) 1 "transfer" "2024-01-03 08:00:00") ∧
    pendrives st' = pendrives self_request.
Proof.
  destruct (accept_self_request 1
              (RequestRow 1 1 1 "pending" (Some "") "2024-01-02 09:00:00" None)
              "2024-01-03 08:00:00" self_request)
    as (tid & st' & Hret & Hreq & _ & _ & Hlog & Hsame).
  - vm_compute. reflexivity.
  - reflexivity.
  - reflexivity.
  - exists tid, st'. split; [exact Hret |]. split; [exact Hreq |].
    split; [rewrite Hlog; apply lookup_insert_eq |].
    apply Hsame. intros p Hp. vm_compute in Hp. by injection Hp as <-.
Defined.

(** ** The life of a request *)

Lemma reachable_exec_all cs st : reachable st → reachable (exec_all cs st).
Proof.
  revert st. induction cs as [| [c now] cs IH]; intros st Hst; simpl; [done |].
  apply IH. by constructor.
Qed.

Lemma add_dgsc_requests n d owner_id now st :
  requests (add_dgsc n d owner_id now st).2 = requests st.
Proof.
  unfold add_dgsc, mbind, sql_bind.
  destruct (name_taken n (pendrives st)) eqn:Hn.
  - by rewrite insert_pendrive_taken.
  - by rewrite insert_pendrive_free.
Qed.

Lemma add_user_in_range user_id un fn ln now st :
  in_int64 user_id →
  add_user user_id un fn ln now st =
    (Done tt,
     Db (<[user_id := UserRow un fn ln (early now)]> (users st)) (pendrives st)
        (requests st) (transactions st)
        (seq_pendrives st) (seq_requests st) (seq_transactions st)).
Proof.
  intros Hin. unfold add_user, commit, replace_user.
  by rewrite bool_decide_true.
Qed.

Lemma add_user_overflow user_id un fn ln now st :
  ¬ in_int64 user_id →
  add_user user_id un fn ln now st = (Raised OverflowError, st).
Proof.
  intros Hout. unfold add_user, commit, replace_user.
  by rewrite bool_decide_false.
Qed.

Lemma create_request_in_range dgsc_id requester current_owner msg now st :
  in_int64 dgsc_id → in_int64 requester → in_int64 current_owner →
  create_request dgsc_id requester current_owner msg now st =
    (Done (next_rowid (requests st) (seq_requests st)),
     Db (users st) (pendrives st)
        (<[next_rowid (requests st) (seq_requests st) :=
             RequestRow dgsc_id requester current_owner "pending" (Some msg)
                        (early now) None]> (requests st))
        (transactions st)
        (seq_pendrives st) (next_rowid (requests st) (seq_requests st))
        (seq_transactions st)).
Proof.
  intros Hd Hr Ho. unfold create_request, commit, insert_request, fits.
  by rewrite !bool_decide_true.
Qed.

Lemma create_request_overflow dgsc_id requester current_owner msg now st :
  ¬ (in_int64 dgsc_id ∧ in_int64 requester ∧ in_int64 current_owner) →
  create_request dgsc_id requester current_owner msg now st =
    (Raised OverflowError, st).
Proof.
  intros Hout. unfold create_request, commit, insert_request, fits.
  destruct (bool_decide (in_int64 dgsc_id)) eqn:Hd;
    destruct (bool_decide (in_int64 requester)) eqn:Hr;
    destruct (bool_decide (in_int64 current_owner)) eqn:Ho; try done.
  apply bool_decide_eq_true in Hd, Hr, Ho. by destruct Hout.
Qed.

(** Unless the request is pending, [accept_request] and [reject_request]
    leave the database as it was and do not return True. *)
Lemma accept_request_refused request_id now st :
  (∀ r, requests st !! request_id = Some r → status r ≠ "pending") →
  (accept_request request_id now st).2 = st ∧
  (accept_request request_id now st).1 ≠ Done true.
Proof.
  intros Hno. destruct (requests st !! request_id) as [r |] eqn:Hr.
  - by rewrite (accept_request_resolved _ r) by auto.
  - rewrite accept_request_absent by done.
    by destruct (bool_decide (in_int64 request_id)).
Qed.

Lemma reject_request_refused request_id now st :
  (∀ r, requests st !! request_id = Some r → status r ≠ "pending") →
  (reject_request request_id now st).2 = st ∧
  (reject_request request_id now st).1 ≠ Done true.
Proof.
  intros Hno. destruct (requests st !! request_id) as [r |] eqn:Hr.
  - by rewrite (reject_request_resolved _ r) by auto.
  - rewrite reject_request_absent by done.
    by destruct (bool_decide (in_int64 request_id)).
Qed.

Lemma not_pending_or_pending request_id st :
  (∃ r, requests st !! request_id = Some r ∧ status r = "pending") ∨
  (∀ r, requests st !! request_id = Some r → status r ≠ "pending").
Proof.
  destruct (requests st !! request_id) as [r |] eqn:Hr; [| by right].
  destruct (decide (status r = "pending")) as [Hs | Hs]; [by eauto |].
  right. by intros r0 [= <-].
Qed.

(** Where a request row of the next database comes from: it was there
    already, or it is new and pending, or it was pending and this very
    call resolved it. *)
Lemma exec_requests_backward c now st id r' :
  requests (exec c now st) !! id = Some r' →
  requests st !! id = Some r' ∨
  (requests st !! id = None ∧ status r' = "pending" ∧ resolved_at r' = None) ∨
  (∃ r, requests st !! id = Some r ∧ status r = "pending" ∧
        ((c = AcceptRequest id ∧ r' = resolve "accepted" (early now) r) ∨
         (c = RejectRequest id ∧ r' = resolve "rejected" (early now) r))).
Proof.
  destruct c as [uid un fn ln | n d o | p q o msg | rid | rid]; cbn [exec].
  - destruct (decide (in_int64 uid)).
    + rewrite add_user_in_range by done. auto.
    + rewrite add_user_overflow by done. auto.
  - rewrite add_dgsc_requests. auto.
  - destruct (decide (in_int64 p ∧ in_int64 q ∧ in_int64 o)) as [(? & ? & ?) |].
    + rewrite create_request_in_range by done. cbn [snd requests].
      rewrite lookup_insert. case_decide as Hid; [| auto].
      intros [= <-]. subst id. right. left.
      split; [apply next_rowid_fresh | done].
    + rewrite create_request_overflow by done. auto.
  - destruct (not_pending_or_pending rid st) as [(r & Hr & Hs) | Hno].
    + rewrite (accept_request_pending _ r) by done. cbn [snd requests].
      rewrite lookup_insert. case_decide as Hid; [| auto].
      intros [= <-]. subst id. right. right. exists r. auto.
    + rewrite (proj1 (accept_request_refused rid now st Hno)). auto.
  - destruct (not_pending_or_pending rid st) as [(r & Hr & Hs) | Hno].
    + rewrite (reject_request_pending _ r) by done. cbn [snd requests].
      rewrite lookup_insert. case_decide as Hid; [| auto].
      intros [= <-]. subst id. right. right. exists r. auto.
    + rewrite (proj1 (reject_request_refused rid now st Hno)). auto.
Qed.

(** No call removes a request row. *)
Lemma exec_requests_forward c now st id r :
  requests st !! id = Some r → is_Some (requests (exec c now st) !! id).
Proof.
  intros Hid.
  destruct c as [uid un fn ln | n d o | p q o msg | rid | rid]; cbn [exec].
  - destruct (decide (in_int64 uid)).
    + rewrite add_user_in_range by done. eauto.
    + rewrite add_user_overflow by done. eauto.
  - rewrite add_dgsc_requests. eauto.
  - destruct (decide (in_int64 p ∧ in_int64 q ∧ in_int64 o)) as [(? & ? & ?) |].
    + rewrite create_request_in_range by done. cbn [snd requests].
      rewrite lookup_insert. case_decide; eauto.
    + rewrite create_request_overflow by done. eauto.
  - destruct (not_pending_or_pending rid st) as [(r0 & Hr & Hs) | Hno].
    + rewrite (accept_request_pending _ r0) by done. cbn [snd requests].
      rewrite lookup_insert. case_decide; eauto.
    + rewrite (proj1 (accept_request_refused rid now st Hno)). eauto.
  - destruct (not_pending_or_pending rid st) as [(r0 & Hr & Hs) | Hno].
    + rewrite (reject_request_pending _ r0) by done. cbn [snd requests].
      rewrite lookup_insert. case_decide; eauto.
    + rewrite (proj1 (reject_request_refused rid now st Hno)). eauto.
Qed.

(** A resolved row is the same row after any call. *)
Lemma exec_resolved_fixed c now st id r :
  requests st !! id = Some r →
  status r ≠ "pending" →
  requests (exec c now st) !! id = Some r.
Proof.
  intros Hid Hs.
  destruct (exec_requests_forward c now st id r Hid) as [r' Hr'].
  destruct (exec_requests_backward c now st id r' Hr')
    as [Hsame | [(Hnone & _) | (r0 & Hr0 & Hs0 & _)]]; congruence.
Qed.

Lemma exec_all_resolved_fixed cs st id r :
  requests st !! id = Some r →
  status r ≠ "pending" →
  requests (exec_all cs st) !! id = Some r.
Proof.
  revert st. induction cs as [| [c now] cs IH]; intros st Hid Hs; simpl; [done |].
  apply IH; [| done]. by apply exec_resolved_fixed.
Qed.

(** In a reachable database every request is pending, accepted or
    rejected. *)
Lemma reachable_status st id r :
  reachable st →
  requests st !! id = Some r →
  status r = "pending" ∨ status r = "accepted" ∨ status r = "rejected".
Proof.
  intros Hst. revert id r.
  induction Hst as [| c now st Hst IH]; intros id r Hid; [done |].
  destruct (exec_requests_backward c now st id r Hid)
    as [Hsame | [(_ & Hs & _) | (r0 & _ & _ & [[_ ->] | [_ ->]])]]; eauto.
Qed.

(** C2.  For a request of a reachable database: its status is pending,
    accepted or rejected; a call keeps its row in the table and changes
    its status only from pending, to accepted when the call is
    [accept_request] on it and to rejected when the call is
    [reject_request] on it; and once it is accepted or rejected, after any
    further calls its row (status and resolved_at included) is what it
    was, and [accept_request] and [reject_request] on it return False,
    raising nothing and changing nothing. *)
Theorem request_lifecycle st id r :
  reachable st →
  requests st !! id = Some r →
  (status r = "pending" ∨ status r = "accepted" ∨ status r = "rejected") ∧
  (∀ c now, ∃ r',
     requests (exec c now st) !! id = Some r' ∧
     (status r' = status r ∨
      status r = "pending" ∧
      (c = AcceptRequest id ∧ status r' = "accepted" ∨
       c = RejectRequest id ∧ status r' = "rejected"))) ∧
  (status r = "accepted" ∨ status r = "rejected" →
   ∀ cs now,
     requests (exec_all cs st) !! id = Some r ∧
     accept_request id now (exec_all cs st) = (Done false, exec_all cs st) ∧
     reject_request id now (exec_all cs st) = (Done false, exec_all cs st)).
Proof.
  intros Hst Hid. split; [by eapply reachable_status |]. split.
  - intros c now.
    destruct (exec_requests_forward c now st id r Hid) as [r' Hr'].
    exists r'. split; [done |].
    destruct (exec_requests_backward c now st id r' Hr')
      as [Hsame | [(Hnone & _) | (r0 & Hr0 & Hs0 & Hc)]].
    + left. congruence.
    + congruence.
    + assert (r0 = r) as -> by congruence. right. split; [done |].
      destruct Hc as [[-> ->] | [-> ->]]; auto.
  - intros Hres cs now.
    assert (Hs : status r ≠ "pending") by (destruct Hres as [-> | ->]; done).
    assert (Hfix := exec_all_resolved_fixed cs st id r Hid Hs).
    split; [done |]. split.
    + by apply (accept_request_resolved _ r).
    + by apply (reject_request_resolved _ r).
Qed.

Lemma request_lifecycle_witness :
  let r := RequestRow 1 2 1 "accepted" (Some "") "2024-01-02 09:05:00"
                      (Some "2024-01-02 09:10:00") in
  let later := exec_all [(RejectRequest 2, at_time "2024-01-04 08:00:00");
                         (AcceptRequest 2, at_time "2024-01-04 08:00:01");
                         (AcceptRequest 1, at_time "2024-01-04 08:00:02")]
                        stale_self_request in
  requests later !! 2 = Some r ∧
  accept_request 2 "2024-01-05 08:00:00" later = (Done false, later) ∧
  reject_request 2 "2024-01-05 08:00:00" later = (Done false, later).
Proof.
  intros r later.
  destruct (request_lifecycle stale_self_request 2 r) as (_ & _ & Hfinal).
  - apply reachable_exec_all. apply reachable_exec. apply reachable_init.
  - vm_compute. reflexivity.
  - apply Hfinal. left. reflexivity.
Defined.

(** ** Display names *)

(** C4, as stated, fails: with handle "jsmith", an empty given name and
    family name "Smith", the name shown is the handle. *)
Lemma display_name_prefers_handle :
  search_owner_display
    (1, "Drive A", Some "", Some 7, Some "jsmith", Some "", Some "Smith")
  = "jsmith" ∧
  search_owner_display
    (1, "Drive A", Some "", Some 7, Some "jsmith", Some "", Some "Smith")
  ≠ "Smith".
Proof. split; [by vm_compute | by vm_compute]. Qed.

(** C4, amended.  Wherever a name is resolved, handle "jsmith" with an
    empty given name and family name "Smith" gives "jsmith", and three
    empty fields give "User " followed by the id. *)
Theorem display_name_examples (id dgsc_id req_id : Z) (n s : string)
    (d msg : option string) (t : timestamp) :
  (search_owner_display
     (dgsc_id, n, d, Some id, Some "jsmith", Some "", Some "Smith") = "jsmith" ∧
   list_owner_display
     (dgsc_id, n, d, Some id, Some "jsmith", Some "", Some "Smith", t) = "jsmith" ∧
   request_start_owner_name
     (dgsc_id, n, d, Some id, Some "jsmith", Some "", Some "Smith") = "jsmith" ∧
   my_requests_owner_display
     (req_id, dgsc_id, n, id, Some "jsmith", Some "", s, t) = "jsmith" ∧
   pending_requester_display
     (req_id, dgsc_id, n, id, Some "jsmith", Some "", msg, t) = "jsmith") ∧
  (search_owner_display
     (dgsc_id, n, d, Some id, Some "", Some "", Some "") = "User " +:+ str_int id ∧
   list_owner_display
     (dgsc_id, n, d, Some id, Some "", Some "", Some "", t) = "User " +:+ str_int id ∧
   request_start_owner_name
     (dgsc_id, n, d, Some id, Some "", Some "", Some "") = "User " +:+ str_int id ∧
   my_requests_owner_display
     (req_id, dgsc_id, n, id, Some "", Some "", s, t) = "User " +:+ str_int id ∧
   pending_requester_display
     (req_id, dgsc_id, n, id, Some "", Some "", msg, t) = "User " +:+ str_int id).
Proof. repeat split. Qed.

(** Three of the five places resolve a name exactly as the policy says. *)
Lemma search_owner_display_policy dgsc_id n d id handle given family :
  search_owner_display (dgsc_id, n, d, Some id, handle, given, family)
  = spec_display_name id handle given family.
Proof. reflexivity. Qed.

Lemma list_owner_display_policy dgsc_id n d id handle given family t :
  list_owner_display (dgsc_id, n, d, Some id, handle, given, family, t)
  = spec_display_name id handle given family.
Proof. reflexivity. Qed.

Lemma request_start_owner_name_policy dgsc_id n d id handle given family :
  request_start_owner_name (dgsc_id, n, d, Some id, handle, given, family)
  = spec_display_name id handle given family.
Proof. reflexivity. Qed.

(** The two request listings agree with the policy for users who have
    no family name to fall back on. *)
Lemma my_requests_owner_display_policy req_id dgsc_id n id handle given s t :
  my_requests_owner_display (req_id, dgsc_id, n, id, handle, given, s, t)
  = spec_display_name id handle given None.
Proof. reflexivity. Qed.

Lemma pending_requester_display_policy req_id dgsc_id n id handle given msg t :
  pending_requester_display (req_id, dgsc_id, n, id, handle, given, msg, t)
  = spec_display_name id handle given None.
Proof. reflexivity. Qed.

(** C5 does not hold of the code.  User 7 has no handle, an empty given
    name and the family name "Smith", for which the policy gives "Smith".
    The search, the item list and the request prompt show "Smith"; the
    two request listings, whose queries do not select the family name,
    show "User 7" for the same user, and the notification sent to the
    owner shows "None". *)
Theorem display_name_family_fallback_missing :
  spec_display_name 7 None (Some "") (Some "Smith") = "Smith" ∧
  search_owner_display <$> search_dgsc "Drive A" family_name_only = ["Smith"] ∧
  request_start_owner_name <$> get_dgsc_by_id 1 family_name_only = Some "Smith" ∧
  list_owner_display
    (1, "Drive A", Some "", Some 7, None, Some "", Some "Smith",
     "2024-01-01 10:00:00") = "Smith" ∧
  my_requests_owner_display <$> user_request_rows 2 family_name_only
    = ["User 7"] ∧
  pending_requester_display <$> get_pending_requests_for_user 2 family_name_only
    = ["User 7"] ∧
  notification_requester_name (Some "") None = "None".
Proof. by vm_compute. Qed.

(** ** Search *)

Lemma like_from_percent s : like_from "%" s = true.
Proof. induction s as [| c s IH]; [done |]. simpl in *. exact IH. Qed.

Lemma wildcard_free_cons c t :
  wildcard_free (String c t) ↔ (c ≠ "%"%char ∧ c ≠ "_"%char) ∧ wildcard_free t.
Proof. unfold wildcard_free. simpl. by rewrite Forall_cons. Qed.

Lemma nul_free_cons c t :
  nul_free (String c t) ↔ c ≠ "000"%char ∧ nul_free t.
Proof. unfold nul_free. simpl. by rewrite Forall_cons. Qed.

Lemma nul_free_append a b : nul_free a → nul_free b → nul_free (a +:+ b).
Proof.
  intros Ha Hb. induction a as [| c a IH]; [done |].
  apply nul_free_cons in Ha as [Hc Ha].
  change (String c a +:+ b) with (String c (a +:+ b)).
  apply nul_free_cons. auto.
Qed.

Lemma nul_free_percent : nul_free "%".
Proof. apply nul_free_cons. split; [done | constructor]. Qed.

(** A text without U+0000 is all of it a C string. *)
Lemma c_string_nul_free t : nul_free t → c_string t = t.
Proof.
  induction t as [| c t IH]; [done |].
  intros [Hc Ht]%nul_free_cons. cbn [c_string].
  rewrite bool_decide_false by done. by rewrite IH.
Qed.

(** A pattern of literal characters followed by [%] matches the strings
    that begin with those characters, up to case. *)
Lemma like_from_literal t s :
  wildcard_free t → like_from (t +:+ "%") s = ci_prefix t s.
Proof.
  revert s. induction t as [| c t IH]; intros s Hfree.
  - rewrite like_from_percent. by destruct s.
  - apply wildcard_free_cons in Hfree as [[Hc1 Hc2] Hfree].
    change (String c t +:+ "%") with (String c (t +:+ "%")).
    cbn [like_from ci_prefix].
    rewrite !bool_decide_false by done.
    destruct s as [| d s]; [done |]. by rewrite IH.
Qed.

(** Between two [%], literal characters match the texts that contain
    them, up to case, when neither holds U+0000. *)
Lemma like_contains t s :
  wildcard_free t → nul_free t → nul_free s →
  like s ("%" +:+ t +:+ "%") = ci_substring t s.
Proof.
  intros Hfree Ht Hs. unfold like.
  rewrite (c_string_nul_free s) by done.
  rewrite (c_string_nul_free ("%" +:+ t +:+ "%"))
    by (apply (nul_free_append "%"); [apply nul_free_percent |];
        apply nul_free_append; [done | apply nul_free_percent]).
  change ("%" +:+ t +:+ "%") with (String "%" (t +:+ "%")).
  cbn [like_from]. rewrite bool_decide_true by done.
  clear Hs. induction s as [| d s IH].
  - by rewrite like_from_literal.
  - cbn [ci_substring]. by rewrite like_from_literal, IH.
Qed.

(** What [search_dgsc] returns, in terms of LIKE. *)
Lemma elem_of_search_dgsc term st row :
  row ∈ search_dgsc term st ↔
  ∃ id p, pendrives st !! id = Some p ∧ row = join_owner st (id, p) ∧
          (like (name p) ("%" +:+ term +:+ "%") = true ∨
           like_null (description p) ("%" +:+ term +:+ "%") = true).
Proof.
  unfold search_dgsc. rewrite list_elem_of_fmap. split.
  - intros ([id p] & -> & Hin). apply list_elem_of_filter in Hin as [Hm Hin].
    apply elem_of_scan in Hin. exists id, p. repeat split; [done |].
    apply Is_true_true, orb_true_iff in Hm. exact Hm.
  - intros (id & p & Hin & -> & Hm). exists (id, p). split; [done |].
    apply list_elem_of_filter. split; [| by apply elem_of_scan].
    apply Is_true_true, orb_true_iff. exact Hm.
Qed.

(** For a term without [%], [_] and U+0000, over texts without U+0000,
    the search is the one the specification describes. *)
Lemma search_dgsc_wildcard_free term st row :
  wildcard_free term → nul_free term → texts_nul_free st →
  row ∈ search_dgsc term st ↔
  ∃ id p, pendrives st !! id = Some p ∧ row = join_owner st (id, p) ∧
          spec_matches term p = true.
Proof.
  intros Hfree Hnul Htexts. rewrite elem_of_search_dgsc.
  apply exist_proper; intros id. apply exist_proper; intros p.
  split; intros (Hp & Hrow & Hm); (split; [done |]); (split; [done |]);
    destruct (Htexts id p Hp) as [Hn Hd];
    unfold spec_matches, like_null in *; rewrite orb_true_iff in *;
    rewrite like_contains in * by done;
    (destruct Hm as [Hm | Hm]; [by left | right]);
    (destruct (description p) as [d |]; [| done]);
    rewrite like_contains in * by auto; done.
Qed.

(** C6 does not hold of the code.  "drive" is found in "USB Drive" and in
    the description "spare drive" and not in "Keyboard", as claimed; but
    the term "_" is a substring of neither the name "Keyboard" nor its
    empty description, and the search for "_" returns the keyboard all
    the same, with every other item that has a name. *)
Theorem search_dgsc_underscore :
  search_dgsc "drive" three_items =
    [(1, "USB Drive", Some "", Some 1, None, None, None);
     (2, "Box", Some "spare drive", Some 1, None, None, None)] ∧
  pendrives three_items !! 3 =
    Some (PendriveRow "Keyboard" (Some "") (Some 1) "2024-01-01 10:02:00") ∧
  spec_matches "_"
    (PendriveRow "Keyboard" (Some "") (Some 1) "2024-01-01 10:02:00") = false ∧
  search_dgsc "_" three_items =
    [(1, "USB Drive", Some "", Some 1, None, None, None);
     (2, "Box", Some "spare drive", Some 1, None, None, None);
     (3, "Keyboard", Some "", Some 1, None, None, None)].
Proof. by vm_compute. Qed.

(** * Further properties of the store *)

(** ** Calls as steps *)

Lemma add_dgsc_free n d owner_id now st :
  (∀ id p, pendrives st !! id = Some p → name p ≠ n) →
  add_dgsc n d owner_id now st =
    (Done true,
     Db (users st)
        (<[next_rowid (pendrives st) (seq_pendrives st) :=
             PendriveRow n (Some d) (Some owner_id) (early now)]> (pendrives st))
        (requests st)
        (<[next_rowid (transactions st) (seq_transactions st) :=
             TransactionRow (next_rowid (pendrives st) (seq_pendrives st))
                            None owner_id "initial_assignment" (late now)]>
           (transactions st))
        (next_rowid (pendrives st) (seq_pendrives st)) (seq_requests st)
        (next_rowid (transactions st) (seq_transactions st))).
Proof.
  intros Hfree%name_taken_false. unfold add_dgsc, mbind, sql_bind.
  by rewrite insert_pendrive_free.
Qed.

Lemma add_dgsc_taken n d owner_id now st id p :
  pendrives st !! id = Some p → name p = n →
  add_dgsc n d owner_id now st = (Done false, st).
Proof.
  intros Hp Hn. unfold add_dgsc, mbind, sql_bind.
  rewrite insert_pendrive_taken; [done |]. apply name_taken_true. eauto.
Qed.

(** Every call is one of the steps. *)
Lemma exec_step c now st : step now st c (exec c now st).
Proof.
  destruct c as [uid un fn ln | n d o | p q o msg | rid | rid]; cbn [exec].
  - destruct (decide (in_int64 uid)).
    + rewrite add_user_in_range by done. by constructor.
    + rewrite add_user_overflow by done. by constructor.
  - destruct (name_taken n (pendrives st)) eqn:Hn.
    + apply name_taken_true in Hn as (id & p & Hp & Hn).
      rewrite (add_dgsc_taken _ _ _ _ _ id p) by done. by econstructor.
    + pose proof (proj1 (name_taken_false _ _) Hn) as Hfree.
      rewrite add_dgsc_free by done. by constructor.
  - destruct (decide (in_int64 p ∧ in_int64 q ∧ in_int64 o)) as [(? & ? & ?) |].
    + rewrite create_request_in_range by done. by constructor.
    + rewrite create_request_overflow by done. by constructor.
  - destruct (not_pending_or_pending rid st) as [(r & Hr & Hs) | Hno].
    + rewrite (accept_request_pending _ r) by done. by constructor.
    + rewrite (proj1 (accept_request_refused rid now st Hno)). by constructor.
  - destruct (not_pending_or_pending rid st) as [(r & Hr & Hs) | Hno].
    + rewrite (reject_request_pending _ r) by done. by constructor.
    + rewrite (proj1 (reject_request_refused rid now st Hno)). by constructor.
Qed.

(** Induction over the reachable databases, by steps. *)
Lemma reachable_step_ind (P : db → Prop) :
  P init_database →
  (∀ now st c st', reachable st → P st → step now st c st' → P st') →
  ∀ st, reachable st → P st.
Proof.
  intros Hinit Hstep st Hst. induction Hst as [| c now st Hst IH]; [done |].
  eapply Hstep; [exact Hst | exact IH | apply exec_step].
Qed.

(** ** Items under a call *)

(** Where an item row of the next database comes from: it was there, with
    the same name, description and creation time, and the same owner
    unless this call accepted a pending request for it; or it is the row
    this call registered. *)
Lemma step_pendrives_backward now st c st' id p' :
  step now st c st' →
  pendrives st' !! id = Some p' →
  (∃ p, pendrives st !! id = Some p ∧
        name p' = name p ∧ description p' = description p ∧
        pendrive_created_at p' = pendrive_created_at p ∧
        (owner p' = owner p ∨
         ∃ request_id r,
           c = AcceptRequest request_id ∧
           requests st !! request_id = Some r ∧ status r = "pending" ∧
           pendrive_id r = id ∧ owner p' = Some (requester_id r))) ∨
  (pendrives st !! id = None ∧
   ∃ n d owner_id,
     c = AddDgsc n d owner_id ∧
     (∀ i p, pendrives st !! i = Some p → name p ≠ n) ∧
     p' = PendriveRow n (Some d) (Some owner_id) (early now)).
Proof.
  intros Hstep. destruct Hstep as
    [uid un fn ln Hin | uid un fn ln Hout
    | n d o Hfree | n d o i p Hp Hn
    | dg q o msg Hdg Hq Ho | dg q o msg Hout
    | rid r Hr Hs | rid Hno | rid r Hr Hs | rid Hno]; simpl; intros Hid;
    try (left; exists p'; by eauto 10).
  - rewrite lookup_insert in Hid. case_decide as Hk.
    + injection Hid as <-. subst id. right.
      split; [apply next_rowid_fresh |]. by exists n, d, o.
    + left. exists p'. by eauto 10.
  - rewrite lookup_alter in Hid. case_decide as Hk.
    + subst id.
      destruct (pendrives st !! pendrive_id r) as [p |] eqn:Hp;
        simpl in Hid; [| done].
      injection Hid as <-. left. exists p. repeat split; try done.
      right. by exists rid, r.
    + left. exists p'. by eauto 10.
Qed.

(** No call removes an item. *)
Lemma step_pendrives_forward now st c st' id p :
  step now st c st' →
  pendrives st !! id = Some p →
  is_Some (pendrives st' !! id).
Proof.
  intros Hstep Hid. destruct Hstep; simpl; eauto.
  - rewrite lookup_insert. case_decide; eauto.
  - rewrite lookup_alter. case_decide as Hk; [| by eauto].
    subst id. rewrite Hid. simpl. eauto.
Qed.

(** ** The transaction log under a call *)

(** Where a row of the next log comes from: it was there, or it is the
    initial assignment of the item this call registered, or the transfer
    this call made by accepting a pending request. *)
Lemma step_transactions_backward now st c st' tid t :
  step now st c st' →
  transactions st' !! tid = Some t →
  transactions st !! tid = Some t ∨
  (transactions st !! tid = None ∧
   (∀ j u, transactions st !! j = Some u → j < tid) ∧
   ((∃ n d owner_id,
       c = AddDgsc n d owner_id ∧
       pendrives st !! t_pendrive_id t = None ∧
       pendrives st' !! t_pendrive_id t =
         Some (PendriveRow n (Some d) (Some owner_id) (early now)) ∧
       t = TransactionRow (t_pendrive_id t) None owner_id
                          "initial_assignment" (late now)) ∨
    (∃ request_id r,
       c = AcceptRequest request_id ∧
       requests st !! request_id = Some r ∧ status r = "pending" ∧
       t = TransactionRow (pendrive_id r) (Some (current_owner_id r))
                          (requester_id r) "transfer" (late now)))).
Proof.
  intros Hstep. destruct Hstep as
    [uid un fn ln Hin | uid un fn ln Hout
    | n d o Hfree | n d o i p Hp Hn
    | dg q o msg Hdg Hq Ho | dg q o msg Hout
    | rid r Hr Hs | rid Hno | rid r Hr Hs | rid Hno]; simpl; intros Hid;
    try (by left).
  - rewrite lookup_insert in Hid. case_decide as Hk; [| by left].
    injection Hid as <-. subst tid. right.
    split; [apply next_rowid_fresh |].
    split; [intros j u; apply next_rowid_gt |].
    left. exists n, d, o. simpl.
    split; [done |]. split; [apply next_rowid_fresh |].
    split; [by rewrite lookup_insert_eq | done].
  - rewrite lookup_insert in Hid. case_decide as Hk; [| by left].
    injection Hid as <-. subst tid. right.
    split; [apply next_rowid_fresh |].
    split; [intros j u; apply next_rowid_gt |].
    right. by exists rid, r.
Qed.

Lemma step_transactions_forward now st c st' tid t :
  step now st c st' →
  transactions st !! tid = Some t →
  transactions st' !! tid = Some t.
Proof.
  intros Hstep Hid. destruct Hstep; simpl; try done.
  - rewrite lookup_insert_ne; [done |]. intros Heq.
    rewrite <- Heq, next_rowid_fresh in Hid. done.
  - rewrite lookup_insert_ne; [done |]. intros Heq.
    rewrite <- Heq, next_rowid_fresh in Hid. done.
Qed.

(** X1.  No call deletes or renames an item: after any call an item is
    still there with its name, description and creation time, and its
    owner is the one it had unless the call was [accept_request] on a
    pending request for this item, in which case it is that request's
    requester. *)
Theorem item_under_call c now st id p :
  pendrives st !! id = Some p →
  ∃ p',
    pendrives (exec c now st) !! id = Some p' ∧
    name p' = name p ∧ description p' = description p ∧
    pendrive_created_at p' = pendrive_created_at p ∧
    (owner p' = owner p ∨
     ∃ request_id r,
       c = AcceptRequest request_id ∧
       requests st !! request_id = Some r ∧ status r = "pending" ∧
       pendrive_id r = id ∧ owner p' = Some (requester_id r)).
Proof.
  intros Hid. pose proof (exec_step c now st) as Hstep.
  destruct (step_pendrives_forward _ _ _ _ _ _ Hstep Hid) as [p' Hp'].
  exists p'. split; [done |].
  destruct (step_pendrives_backward _ _ _ _ _ _ Hstep Hp')
    as [(p0 & Hp0 & Hrest) | (Hnone & _)]; [| congruence].
  assert (p0 = p) as -> by congruence. exact Hrest.
Qed.

Lemma item_under_call_witness :
  ∃ p',
    pendrives (exec (AcceptRequest 1) "2024-01-03 08:00:00" one_request) !! 1
      = Some p' ∧
    name p' = "Drive A" ∧ owner p' = Some 2.
Proof.
  destruct (item_under_call (AcceptRequest 1) "2024-01-03 08:00:00" one_request 1
              (PendriveRow "Drive A" (Some "") (Some 1) "2024-01-01 10:00:00"))
    as (p' & Hp' & Hn & _ & _ & Ho).
  - vm_compute. reflexivity.
  - exists p'. split; [exact Hp' |]. split; [exact Hn |].
    destruct Ho as [Ho | (rid & r & Hc & Hr & _ & _ & Ho)].
    + vm_compute in Hp'. injection Hp' as <-. discriminate Ho.
    + injection Hc as <-. vm_compute in Hr. injection Hr as <-. exact Ho.
Defined.

(** X2.  The transaction log is append-only: a row of the log is still
    there, unchanged and under the same id, after any sequence of
    calls. *)
Theorem log_append_only cs st tid t :
  transactions st !! tid = Some t →
  transactions (exec_all cs st) !! tid = Some t.
Proof.
  revert st. induction cs as [| [c now] cs IH]; intros st Hid; simpl; [done |].
  apply IH. eapply step_transactions_forward; [apply exec_step | done].
Qed.

Lemma log_append_only_witness :
  transactions
    (exec_all [(CreateRequest 1 2 1 "", at_time "2024-01-02 09:00:00");
               (AcceptRequest 1, at_time "2024-01-02 09:10:00");
               (AddDgsc "Drive B" "" 2, at_time "2024-01-02 09:20:00")]
              one_drive) !! 1
  = Some (TransactionRow 1 None 1 "initial_assignment" "2024-01-01 10:00:00").
Proof.
  apply (log_append_only _ one_drive 1). vm_compute. reflexivity.
Defined.

(** X3.  Names stay unique: in a reachable database two different items
    never bear the same name. *)
Theorem reachable_names_unique st i j p q :
  reachable st →
  pendrives st !! i = Some p →
  pendrives st !! j = Some q →
  i ≠ j →
  name p ≠ name q.
Proof.
  intros Hst. revert i j p q.
  induction Hst as [| now st c st' _ IH Hstep] using reachable_step_ind;
    intros i j p q Hi Hj Hij Hn; [done |].
  destruct (step_pendrives_backward _ _ _ _ _ _ Hstep Hi)
    as [(p0 & Hp0 & Hnp & _) | (Hnone_i & n & d & o & -> & Hfree & ->)];
  destruct (step_pendrives_backward _ _ _ _ _ _ Hstep Hj)
    as [(q0 & Hq0 & Hnq & _) | (Hnone_j & n' & d' & o' & Hc & Hfree' & ->)].
  - apply (IH i j p0 q0); congruence.
  - simpl in Hn. apply (Hfree' i p0 Hp0). congruence.
  - simpl in Hn. apply (Hfree j q0 Hq0). congruence.
  - inversion Hstep as [| | ? ? ? _ Heq | ? ? ? ? ? Hp Hpn Heq | | | | | |];
      subst; simpl in *.
    + rewrite lookup_insert in Hi, Hj. repeat case_decide; congruence.
    + congruence.
Qed.

Lemma reachable_names_unique_witness : "USB Drive" ≠ "Box".
Proof.
  apply (reachable_names_unique three_items 1 2
           (PendriveRow "USB Drive" (Some "") (Some 1) "2024-01-01 10:00:00")
           (PendriveRow "Box" (Some "spare drive") (Some 1) "2024-01-01 10:01:00")).
  - apply reachable_exec_all, reachable_init.
  - vm_compute. reflexivity.
  - vm_compute. reflexivity.
  - discriminate.
Defined.

(** ** What reachable databases look like *)

(** X4.  In a reachable database a request has no resolution time exactly
    while it is pending: it is pending with resolved_at NULL, or accepted
    or rejected with resolved_at set. *)
Theorem reachable_resolved_at st id r :
  reachable st →
  requests st !! id = Some r →
  (status r = "pending" ∧ resolved_at r = None) ∨
  ((status r = "accepted" ∨ status r = "rejected") ∧ is_Some (resolved_at r)).
Proof.
  intros Hst. revert id r.
  induction Hst as [| c now st Hst IH]; intros id r Hid; [done |].
  destruct (exec_requests_backward c now st id r Hid)
    as [Hsame | [(_ & Hs & Hnull) | (r0 & _ & _ & [[_ ->] | [_ ->]])]];
    simpl; eauto.
Qed.

Lemma reachable_resolved_at_witness :
  ("accepted" = "pending" ∧ Some "2024-01-02 09:10:00" = None) ∨
  (("accepted" = "accepted" ∨ "accepted" = "rejected") ∧
   is_Some (Some "2024-01-02 09:10:00")).
Proof.
  apply (reachable_resolved_at stale_self_request 2
           (RequestRow 1 2 1 "accepted" (Some "") "2024-01-02 09:05:00"
                       (Some "2024-01-02 09:10:00"))).
  - apply reachable_exec_all, reachable_exec, reachable_init.
  - vm_compute. reflexivity.
Defined.

(** X5.  Every row of a reachable log is accounted for: an
    initial_assignment row has no from-user and belongs to an item that
    exists; a transfer row repeats an accepted request: its item, its
    snapshotted owner as from-user, its requester as to-user.  There is
    no other kind of row. *)
Theorem reachable_log_accounted st tid t :
  reachable st →
  transactions st !! tid = Some t →
  (transaction_type t = "initial_assignment" ∧ from_user_id t = None ∧
   is_Some (pendrives st !! t_pendrive_id t)) ∨
  (transaction_type t = "transfer" ∧
   ∃ request_id r,
     requests st !! request_id = Some r ∧ status r = "accepted" ∧
     pendrive_id r = t_pendrive_id t ∧
     from_user_id t = Some (current_owner_id r) ∧
     requester_id r = to_user_id t).
Proof.
  intros Hst. revert tid t.
  induction Hst as [| c now st Hst IH]; intros tid t Hid; [done |].
  pose proof (exec_step c now st) as Hstep.
  destruct (step_transactions_backward _ _ _ _ _ _ Hstep Hid)
    as [Hold | (_ & _ & [(n & d & o & _ & _ & Hp & Ht) |
                         (rid & r & -> & Hr & Hs & ->)])].
  - destruct (IH tid t Hold)
      as [(Hk & Hf & p & Hp) | (Hk & rid & r & Hr & Hs & Hrest)].
    + left. split; [done |]. split; [done |].
      by apply (step_pendrives_forward _ _ _ _ _ p Hstep).
    + right. split; [done |]. exists rid, r. split; [| done].
      apply exec_resolved_fixed; [done |]. by rewrite Hs.
  - left. split; [by rewrite Ht |]. split; [by rewrite Ht |]. by rewrite Hp.
  - right. cbn [transaction_type t_pendrive_id from_user_id to_user_id].
    split; [done |].
    exists rid, (resolve "accepted" (early now) r).
    cbn [exec]. rewrite (accept_request_pending _ r) by done.
    cbn [snd requests]. by rewrite lookup_insert_eq.
Qed.

Lemma reachable_log_accounted_witness :
  ∃ request_id r,
    requests stale_self_request !! request_id = Some r ∧
    status r = "accepted" ∧ pendrive_id r = 1 ∧
    current_owner_id r = 1 ∧ requester_id r = 2.
Proof.
  destruct (reachable_log_accounted stale_self_request 2
              (TransactionRow 1 (Some 1) 2 "transfer" "2024-01-02 09:10:00"))
    as [(Hk & _) | (_ & rid & r & Hr & Hs & Hp & Hf & Hq)].
  - apply reachable_exec_all, reachable_exec, reachable_init.
  - vm_compute. reflexivity.
  - discriminate Hk.
  - exists rid, r. simpl in *. repeat split; congruence.
Defined.

(** X6.  Conversely nothing happens off the record: in a reachable
    database every item has an initial_assignment row in the log, from
    NULL, and every accepted request has a transfer row, from its
    snapshotted owner to its requester. *)
Theorem reachable_log_complete st :
  reachable st →
  (∀ id p, pendrives st !! id = Some p →
     ∃ tid owner_id stamp,
       transactions st !! tid =
         Some (TransactionRow id None owner_id "initial_assignment" stamp)) ∧
  (∀ request_id r,
     requests st !! request_id = Some r → status r = "accepted" →
     ∃ tid stamp,
       transactions st !! tid =
         Some (TransactionRow (pendrive_id r) (Some (current_owner_id r))
                              (requester_id r) "transfer" stamp)).
Proof.
  induction 1 as [| c now st Hst [IHp IHr]]; [done |].
  pose proof (exec_step c now st) as Hstep. split.
  - intros id p' Hid.
    destruct (step_pendrives_backward _ _ _ _ _ _ Hstep Hid)
      as [(p & Hp & _) | (Hnone & n & d & o & -> & Hfree & ->)].
    + destruct (IHp id p Hp) as (tid & o & stamp & Ht). exists tid, o, stamp.
      by eapply step_transactions_forward.
    + cbn [exec] in Hid |- *. rewrite add_dgsc_free in Hid |- * by done.
      cbn [snd pendrives transactions] in Hid |- *.
      rewrite lookup_insert in Hid.
      case_decide as Hk; [| by rewrite Hnone in Hid]. subst id.
      eexists _, o, _. by rewrite lookup_insert_eq.
  - intros rid r' Hid Hs.
    destruct (exec_requests_backward c now st rid r' Hid)
      as [Hsame | [(_ & Hs' & _) | (r & Hr & Hp & [[-> ->] | [_ ->]])]].
    + destruct (IHr rid r' Hsame Hs) as (tid & stamp & Htid).
      exists tid, stamp. by eapply step_transactions_forward.
    + congruence.
    + cbn [exec]. rewrite (accept_request_pending _ r) by done.
      cbn [snd transactions].
      eexists _, _. by rewrite lookup_insert_eq.
    + simpl in Hs. discriminate Hs.
Qed.

Lemma reachable_log_complete_witness :
  ∃ tid stamp,
    transactions stale_self_request !! tid =
      Some (TransactionRow 1 (Some 1) 2 "transfer" stamp).
Proof.
  destruct (reachable_log_complete stale_self_request) as [_ Haccepted].
  - apply reachable_exec_all, reachable_exec, reachable_init.
  - apply (Haccepted 2 (RequestRow 1 2 1 "accepted" (Some "")
                                   "2024-01-02 09:05:00"
                                   (Some "2024-01-02 09:10:00"))).
    + vm_compute. reflexivity.
    + reflexivity.
Defined.

Lemma last_transaction_insert_new (log : gmap Z transaction_row) id tnew t :
  (∀ j u, log !! j = Some u → j < tnew) →
  t_pendrive_id t = id →
  last_transaction (<[tnew := t]> log) id tnew t.
Proof.
  intros Hlt Hid. split; [by rewrite lookup_insert_eq |]. split; [done |].
  intros tid' t'. rewrite lookup_insert. case_decide; [lia |].
  intros Hold%Hlt _. lia.
Qed.

Lemma last_transaction_insert_other (log : gmap Z transaction_row)
    id tid t tnew u :
  last_transaction log id tid t →
  log !! tnew = None →
  t_pendrive_id u ≠ id →
  last_transaction (<[tnew := u]> log) id tid t.
Proof.
  intros (Ht & Hid & Hmax) Hfresh Hu. split; [| split; [done |]].
  - rewrite lookup_insert_ne; [done |]. congruence.
  - intros tid' t'. rewrite lookup_insert. case_decide; [| by apply Hmax].
    by intros [= <-].
Qed.

Lemma reachable_last_transaction st id p :
  reachable st →
  pendrives st !! id = Some p →
  ∃ tid t, last_transaction (transactions st) id tid t ∧
           owner p = Some (to_user_id t).
Proof.
  intros Hst. revert id p.
  induction Hst as [| now st c st' _ IH Hstep] using reachable_step_ind;
    intros id p' Hid; [done |].
  destruct Hstep as
    [uid un fn ln Hin | uid un fn ln Hout
    | n d o Hfree | n d o i p Hp Hn
    | dg q o msg Hdg Hq Ho | dg q o msg Hout
    | rid r Hr Hs | rid Hno | rid r Hr Hs | rid Hno]; simpl in *; eauto.
  - rewrite lookup_insert in Hid. case_decide as Hk.
    + injection Hid as <-. subst id. eexists _, _. split.
      * apply last_transaction_insert_new; [| done].
        intros j u. apply next_rowid_gt.
      * done.
    + destruct (IH id p' Hid) as (tid & t & Hlast & Ho).
      exists tid, t. split; [| done].
      apply last_transaction_insert_other;
        [done | apply next_rowid_fresh | done].
  - rewrite lookup_alter in Hid. case_decide as Hk.
    + subst id. destruct (pendrives st !! pendrive_id r) as [p |];
        simpl in Hid; [| done].
      injection Hid as <-. eexists _, _. split.
      * apply last_transaction_insert_new; [| done].
        intros j u. apply next_rowid_gt.
      * done.
    + destruct (IH id p' Hid) as (tid & t & Hlast & Ho).
      exists tid, t. split; [| done].
      apply last_transaction_insert_other;
        [done | apply next_rowid_fresh | done].
Qed.

(** X7.  The log tells who holds what: in a reachable database the last
    row of the log about an item names the item's current owner as its
    to-user. *)
Theorem reachable_owner_logged st id p :
  reachable st →
  pendrives st !! id = Some p →
  ∃ tid t,
    transactions st !! tid = Some t ∧ t_pendrive_id t = id ∧
    (∀ tid' t', transactions st !! tid' = Some t' → t_pendrive_id t' = id →
                tid' ≤ tid) ∧
    owner p = Some (to_user_id t).
Proof.
  intros Hst Hp.
  destruct (reachable_last_transaction st id p Hst Hp)
    as (tid & t & (Ht & Hid & Hmax) & Ho).
  by exists tid, t.
Qed.

Lemma reachable_owner_logged_witness :
  ∃ tid t,
    transactions stale_self_request !! tid = Some t ∧ t_pendrive_id t = 1 ∧
    (∀ tid' t', transactions stale_self_request !! tid' = Some t' →
                t_pendrive_id t' = 1 → tid' ≤ tid) ∧
    Some 2 = Some (to_user_id t).
Proof.
  apply (reachable_owner_logged stale_self_request 1
           (PendriveRow "Drive A" (Some "") (Some 2) "2024-01-01 10:00:00")).
  - apply reachable_exec_all, reachable_exec, reachable_init.
  - vm_compute. reflexivity.
Defined.

(** ** Rowids *)

Lemma max_rowid_le {A : Type} (m : gmap Z A) b :
  0 ≤ b → (∀ k v, m !! k = Some v → k ≤ b) → max_rowid m ≤ b.
Proof.
  intros Hb Hall. unfold max_rowid.
  assert (Hl : ∀ k, k ∈ (map_to_list m).*1 → k ≤ b).
  { intros k ([k' v] & -> & Hin%elem_of_map_to_list)%list_elem_of_fmap.
    by apply (Hall k' v). }
  revert Hl. generalize ((map_to_list m).*1). intros l Hl.
  induction l as [| k l IH]; simpl; [done |].
  apply Z.max_lub; [apply Hl; left | apply IH; intros; apply Hl; by right].
Qed.

Lemma alter_absent {A : Type} (f : A → A) (m : gmap Z A) i :
  m !! i = None → alter f i m = m.
Proof.
  intros Hi. apply map_eq. intros j. destruct (decide (i = j)) as [-> |].
  - by rewrite lookup_alter_eq, Hi.
  - by rewrite lookup_alter_ne.
Qed.

(** A table whose rowids are 1..n, with its counter at n. *)
Lemma consecutive_insert {A : Type} (m : gmap Z A) seq v :
  seq = Z.of_nat (size m) →
  (∀ id, is_Some (m !! id) ↔ 1 ≤ id ≤ seq) →
  next_rowid m seq = seq + 1 ∧
  seq + 1 = Z.of_nat (size (<[seq + 1 := v]> m)) ∧
  ∀ id, is_Some (<[seq + 1 := v]> m !! id) ↔ 1 ≤ id ≤ seq + 1.
Proof.
  intros Hsize Hdom.
  assert (Hfresh : m !! (seq + 1) = None).
  { apply eq_None_not_Some. rewrite Hdom. lia. }
  split; [| split].
  - unfold next_rowid. f_equal. apply Z.max_r. apply max_rowid_le; [lia |].
    intros k w Hk. assert (is_Some (m !! k)) as Hs%Hdom by eauto. lia.
  - rewrite map_size_insert_None by done. lia.
  - intros id. rewrite lookup_insert. case_decide as Hk.
    + split; [lia | eauto].
    + rewrite Hdom. lia.
Qed.

Lemma consecutive_update {A : Type} (m : gmap Z A) (n : Z) i x v :
  m !! i = Some x →
  n = Z.of_nat (size m) →
  (∀ id, is_Some (m !! id) ↔ 1 ≤ id ≤ n) →
  n = Z.of_nat (size (<[i := v]> m)) ∧
  ∀ id, is_Some (<[i := v]> m !! id) ↔ 1 ≤ id ≤ n.
Proof.
  intros Hi Hsize Hdom. split.
  - by rewrite map_size_insert_Some.
  - intros id. rewrite lookup_insert. case_decide as Hk; [| apply Hdom].
    subst id. split; [intros _; apply Hdom; eauto | eauto].
Qed.

Lemma consecutive_empty {A : Type} :
  0 = Z.of_nat (size (∅ : gmap Z A)) ∧
  ∀ id, is_Some ((∅ : gmap Z A) !! id) ↔ 1 ≤ id ≤ 0.
Proof.
  split; [by rewrite map_size_empty |].
  intros id. rewrite lookup_empty. split; [by intros [? ?] | lia].
Qed.

(** In a reachable database each AUTOINCREMENT counter is the number of
    rows of its table, whose rowids are 1 up to that number. *)
Lemma reachable_counters st :
  reachable st →
  (seq_pendrives st = Z.of_nat (size (pendrives st)) ∧
   ∀ id, is_Some (pendrives st !! id) ↔ 1 ≤ id ≤ seq_pendrives st) ∧
  (seq_requests st = Z.of_nat (size (requests st)) ∧
   ∀ id, is_Some (requests st !! id) ↔ 1 ≤ id ≤ seq_requests st) ∧
  (seq_transactions st = Z.of_nat (size (transactions st)) ∧
   ∀ id, is_Some (transactions st !! id) ↔ 1 ≤ id ≤ seq_transactions st).
Proof.
  induction 1 as [| now st c st' _ IH Hstep] using reachable_step_ind.
  { split; [| split]; apply consecutive_empty. }
  destruct IH as ((Hps & Hpd) & (Hrs & Hrd) & (Hts & Htd)).
  destruct Hstep as
    [uid un fn ln Hin | uid un fn ln Hout
    | n d o Hfree | n d o i p Hp Hn
    | dg q o msg Hdg Hq Ho | dg q o msg Hout
    | rid r Hr Hs | rid Hno | rid r Hr Hs | rid Hno]; simpl; try done.
  - destruct (consecutive_insert (pendrives st) _
                (PendriveRow n (Some d) (Some o) (early now)) Hps Hpd)
      as (-> & ? & ?).
    destruct (consecutive_insert (transactions st) _
                (TransactionRow (seq_pendrives st + 1) None o
                                "initial_assignment" (late now)) Hts Htd)
      as (-> & ? & ?).
    done.
  - destruct (consecutive_insert (requests st) _
                (RequestRow dg q o "pending" (Some msg) (early now) None)
                Hrs Hrd)
      as (-> & ? & ?).
    done.
  - destruct (consecutive_insert (transactions st) _
                (TransactionRow (pendrive_id r) (Some (current_owner_id r))
                                (requester_id r) "transfer" (late now)) Hts Htd)
      as (-> & ? & ?).
    destruct (consecutive_update (requests st) _ rid r
                (resolve "accepted" (early now) r) Hr Hrs Hrd) as (? & ?).
    split; [| done].
    destruct (pendrives st !! pendrive_id r) as [p |] eqn:Hp.
    + rewrite (alter_lookup _ _ _ p) by done.
      by apply (consecutive_update _ _ _ p).
    + by rewrite alter_absent.
  - destruct (consecutive_update (requests st) _ rid r
                (resolve "rejected" (early now) r) Hr Hrs Hrd) as (? & ?).
    done.
Qed.

(** X8.  Ids are handed out in order: in a reachable database the ids of
    the items, of the requests and of the log rows are 1 up to their
    number, [create_request] returns the number of requests plus one
    (unless an argument does not fit 64 bits, when it raises
    [OverflowError]), and a successful [add_dgsc] gives the new item the
    number of items plus one. *)
Theorem reachable_ids_consecutive st :
  reachable st →
  (∀ id, is_Some (pendrives st !! id) ↔
         1 ≤ id ≤ Z.of_nat (size (pendrives st))) ∧
  (∀ id, is_Some (requests st !! id) ↔
         1 ≤ id ≤ Z.of_nat (size (requests st))) ∧
  (∀ id, is_Some (transactions st !! id) ↔
         1 ≤ id ≤ Z.of_nat (size (transactions st))) ∧
  (∀ dgsc_id requester current_owner msg now,
     (create_request dgsc_id requester current_owner msg now st).1
     = if bool_decide (in_int64 dgsc_id ∧ in_int64 requester ∧
                       in_int64 current_owner)
       then Done (Z.of_nat (size (requests st)) + 1)
       else Raised OverflowError) ∧
  (∀ n d owner_id now,
     (add_dgsc n d owner_id now st).1 = Done true →
     is_Some (pendrives (add_dgsc n d owner_id now st).2
                !! (Z.of_nat (size (pendrives st)) + 1))).
Proof.
  intros ((Hps & Hpd) & (Hrs & Hrd) & (Hts & Htd))%reachable_counters.
  rewrite <- Hps, <- Hrs, <- Hts.
  split; [exact Hpd |]. split; [exact Hrd |]. split; [exact Htd |]. split.
  - intros dg q o msg now. case_bool_decide as Hin.
    + destruct Hin as (? & ? & ?).
      rewrite create_request_in_range by done. cbn [fst]. f_equal.
      by destruct (consecutive_insert (requests st) _
                     (RequestRow dg q o "pending" (Some msg) (early now) None)
                     Hrs Hrd) as (-> & _).
    + by rewrite create_request_overflow.
  - intros n d o now Hok.
    destruct (name_taken n (pendrives st)) eqn:Hn.
    + apply name_taken_true in Hn as (i & p & Hp & Hn).
      by rewrite (add_dgsc_taken _ _ _ _ _ i p) in Hok.
    + pose proof (proj1 (name_taken_false _ _) Hn) as Hfree.
      rewrite add_dgsc_free by done. cbn [snd pendrives].
      destruct (consecutive_insert (pendrives st) _
                  (PendriveRow n (Some d) (Some o) (early now)) Hps Hpd)
        as (-> & _).
      by rewrite lookup_insert_eq.
Qed.

Lemma reachable_ids_consecutive_witness :
  (create_request 1 2 1 "" "2024-01-05 08:00:00" stale_self_request).1
  = Done (Z.of_nat (size (requests stale_self_request)) + 1).
Proof.
  destruct (reachable_ids_consecutive stale_self_request) as (_ & _ & _ & Hnext & _).
  - apply reachable_exec_all, reachable_exec, reachable_init.
  - rewrite Hnext. vm_compute. reflexivity.
Defined.

(** ** How the methods compose *)

(** X9.  Register, request, accept.  When no item is named [n], user
    [u1] registering it, user [u2] asking for it and the request being
    accepted all succeed, the ids of the two users and of the new item
    fitting 64 bits; the item then belongs to [u2], the request is
    accepted, and the log has gained exactly two rows, the initial
    assignment to [u1] and after it the transfer from [u1] to [u2].
    Every row bears the time of the statement that wrote it. *)
Theorem register_request_accept n d u1 u2 msg t1 t2 t3 st :
  (∀ id p, pendrives st !! id = Some p → name p ≠ n) →
  in_int64 u1 → in_int64 u2 →
  in_int64 (next_rowid (pendrives st) (seq_pendrives st)) →
  ∃ id request_id tid1 tid2 st1 st2 st3,
    add_dgsc n d u1 t1 st = (Done true, st1) ∧
    pendrives st !! id = None ∧
    pendrives st1 !! id = Some (PendriveRow n (Some d) (Some u1) (early t1)) ∧
    create_request id u2 u1 msg t2 st1 = (Done request_id, st2) ∧
    accept_request request_id t3 st2 = (Done true, st3) ∧
    pendrives st3 !! id = Some (PendriveRow n (Some d) (Some u2) (early t1)) ∧
    requests st3 !! request_id =
      Some (RequestRow id u2 u1 "accepted" (Some msg) (early t2)
                       (Some (early t3))) ∧
    transactions st !! tid1 = None ∧ tid1 < tid2 ∧
    transactions st3 =
      <[tid2 := TransactionRow id (Some u1) u2 "transfer" (late t3)]>
        (<[tid1 := TransactionRow id None u1 "initial_assignment" (late t1)]>
           (transactions st)).
Proof.
  intros Hfree Hu1 Hu2 Hid.
  set (id := next_rowid (pendrives st) (seq_pendrives st)) in *.
  set (tid1 := next_rowid (transactions st) (seq_transactions st)).
  set (st1 := (add_dgsc n d u1 t1 st).2).
  set (rid := next_rowid (requests st1) (seq_requests st1)).
  set (st2 := (create_request id u2 u1 msg t2 st1).2).
  set (tid2 := next_rowid (transactions st2) (seq_transactions st2)).
  assert (Hst1 : add_dgsc n d u1 t1 st = (Done true, st1)).
  { unfold st1. by rewrite add_dgsc_free. }
  assert (Hp1 : pendrives st1 !! id =
                Some (PendriveRow n (Some d) (Some u1) (early t1))).
  { unfold st1. rewrite add_dgsc_free by done. simpl. apply lookup_insert_eq. }
  assert (Hst2 : create_request id u2 u1 msg t2 st1 = (Done rid, st2)).
  { unfold st2. by rewrite create_request_in_range. }
  assert (Hr2 : requests st2 !! rid =
                Some (RequestRow id u2 u1 "pending" (Some msg) (early t2) None)).
  { unfold st2. rewrite create_request_in_range by done.
    cbn [snd requests]. apply lookup_insert_eq. }
  exists id, rid, tid1, tid2, st1, st2, (accept_request rid t3 st2).2.
  split; [done |]. split; [apply next_rowid_fresh |]. split; [done |].
  split; [done |].
  rewrite (accept_request_pending _ _ _ _ Hr2) by done.
  cbn [snd pendrives requests transactions pendrive_id requester_id
       current_owner_id].
  split; [done |]. split.
  { rewrite lookup_alter_eq. unfold st2.
    rewrite create_request_in_range by done. cbn [snd pendrives].
    by rewrite Hp1. }
  split; [by rewrite lookup_insert_eq |].
  split; [apply next_rowid_fresh |].
  assert (Hlog1 : transactions st1 !! tid1 =
                  Some (TransactionRow id None u1 "initial_assignment"
                                       (late t1))).
  { unfold st1. rewrite add_dgsc_free by done. simpl. apply lookup_insert_eq. }
  assert (Hlog2 : transactions st2 = transactions st1).
  { unfold st2. by rewrite create_request_in_range. }
  split.
  { unfold tid2. rewrite Hlog2. apply (next_rowid_gt _ _ _ _ Hlog1). }
  fold tid2. rewrite Hlog2. unfold st1. rewrite add_dgsc_free by done. done.
Qed.

Lemma register_request_accept_witness :
  ∃ id request_id st3,
    accept_request request_id (Clock "2024-01-03 08:00:00" "2024-01-03 08:00:01")
      (create_request id 2 1 "please" "2024-01-02 09:00:00"
         (add_dgsc "Drive B" "" 1 "2024-01-02 08:00:00" one_drive).2).2
    = (Done true, st3) ∧
    pendrives st3 !! id =
      Some (PendriveRow "Drive B" (Some "") (Some 2) "2024-01-02 08:00:00") ∧
    requests st3 !! request_id =
      Some (RequestRow id 2 1 "accepted" (Some "please") "2024-01-02 09:00:00"
                       (Some "2024-01-03 08:00:00")).
Proof.
  destruct (register_request_accept "Drive B" "" 1 2 "please"
              "2024-01-02 08:00:00" "2024-01-02 09:00:00"
              (Clock "2024-01-03 08:00:00" "2024-01-03 08:00:01")
              one_drive)
    as (id & rid & tid1 & tid2 & st1 & st2 & st3 &
        H1 & _ & _ & H2 & H3 & Hp & Hr & _).
  - apply name_taken_false. vm_compute. reflexivity.
  - unfold in_int64. lia.
  - unfold in_int64. lia.
  - vm_compute. split; discriminate.
  - exists id, rid, st3. rewrite H1. cbn [snd]. rewrite H2. cbn [snd].
    by split.
Defined.

(** A call other than [add_user] on that id leaves a user's row alone. *)
Lemma exec_users_other c now st user_id :
  (∀ un fn ln, c ≠ AddUser user_id un fn ln) →
  users (exec c now st) !! user_id = users st !! user_id.
Proof.
  intros Hc. pose proof (exec_step c now st) as Hstep.
  destruct Hstep; cbn [users]; try done.
  rewrite lookup_insert_ne; [done |]. intros ->. by eapply Hc.
Qed.

Lemma exec_all_users_other cs st user_id :
  Forall (λ c : call * clock, ∀ un fn ln, c.1 ≠ AddUser user_id un fn ln) cs →
  users (exec_all cs st) !! user_id = users st !! user_id.
Proof.
  revert st. induction cs as [| [c t] cs IH]; intros st Hcs; [done |].
  apply Forall_cons in Hcs as [Hc Hcs]. cbn [exec_all].
  rewrite IH by done. by apply exec_users_other.
Qed.

(** X10.  [add_user] keeps one row per user and no history.  For an id
    that fits 64 bits it returns normally, touches no table but [users]
    and no user but the one named, and whatever was stored for that user
    before, afterwards the row is the given names with the time of the
    call; that row stays as it is through any calls until [add_user] is
    called for the same id again.  For an id that does not fit it raises
    [OverflowError] and the database is the one it was given. *)
Theorem add_user_replaces user_id un fn ln now st :
  (in_int64 user_id →
   ∃ st',
     add_user user_id un fn ln now st = (Done tt, st') ∧
     users st' !! user_id = Some (UserRow un fn ln (early now)) ∧
     (∀ other, other ≠ user_id → users st' !! other = users st !! other) ∧
     pendrives st' = pendrives st ∧ requests st' = requests st ∧
     transactions st' = transactions st ∧
     (∀ un0 fn0 ln0 now0,
        (add_user user_id un fn ln now
           (add_user user_id un0 fn0 ln0 now0 st).2).2 = st') ∧
     (∀ cs : list (call * clock),
        Forall (λ c, ∀ un' fn' ln', c.1 ≠ AddUser user_id un' fn' ln') cs →
        users (exec_all cs st') !! user_id =
          Some (UserRow un fn ln (early now)))) ∧
  (¬ in_int64 user_id →
   add_user user_id un fn ln now st = (Raised OverflowError, st)).
Proof.
  split; [| apply add_user_overflow].
  intros Hin. eexists. split; [by apply add_user_in_range |].
  cbn [users pendrives requests transactions].
  split; [apply lookup_insert_eq |].
  split; [intros other Hne; by rewrite lookup_insert_ne |].
  split; [done |]. split; [done |]. split; [done |]. split.
  - intros un0 fn0 ln0 now0. rewrite !add_user_in_range by done.
    cbn [snd users pendrives requests transactions seq_pendrives
         seq_requests seq_transactions].
    by rewrite insert_insert_eq.
  - intros cs Hcs. rewrite exec_all_users_other by done.
    cbn [users]. apply lookup_insert_eq.
Qed.

Lemma add_user_replaces_witness :
  users (exec_all [(AddDgsc "Drive C" "" 7, at_time "2024-01-03 08:00:00");
                   (AddUser 2 None None None, at_time "2024-01-03 08:01:00");
                   (CreateRequest 2 7 2 "again", at_time "2024-01-03 08:02:00")]
           (add_user 7 (Some "smith") (Some "Jo") None "2024-01-02 10:00:00"
                     family_name_only).2) !! 7
  = Some (UserRow (Some "smith") (Some "Jo") None "2024-01-02 10:00:00") ∧
  add_user 9223372036854775808 None None None "2024-01-02 10:00:00"
           family_name_only = (Raised OverflowError, family_name_only).
Proof.
  destruct (add_user_replaces 7 (Some "smith") (Some "Jo") None
              "2024-01-02 10:00:00" family_name_only) as [Hin _].
  destruct Hin as (st' & Hret & _ & _ & _ & _ & _ & _ & Hkept);
    [unfold in_int64; lia |].
  split.
  - rewrite Hret. cbn [snd]. apply Hkept.
    repeat constructor; cbn [fst]; discriminate.
  - apply (add_user_replaces 9223372036854775808 None None None
             "2024-01-02 10:00:00" family_name_only).
    unfold in_int64. lia.
Defined.

(** [accept_request] either finds the request pending or leaves the
    database as it was. *)
Lemma accept_request_cases request_id now st :
  (∃ r, requests st !! request_id = Some r ∧ status r = "pending") ∨
  ((∀ r, requests st !! request_id = Some r → status r ≠ "pending") ∧
   (accept_request request_id now st).2 = st).
Proof.
  destruct (not_pending_or_pending request_id st) as [Hyes | Hno];
    [by left | right].
  split; [done |]. by apply accept_request_refused.
Qed.

Lemma reject_request_cases request_id now st :
  (∃ r, requests st !! request_id = Some r ∧ status r = "pending") ∨
  ((∀ r, requests st !! request_id = Some r → status r ≠ "pending") ∧
   (reject_request request_id now st).2 = st).
Proof.
  destruct (not_pending_or_pending request_id st) as [Hyes | Hno];
    [by left | right].
  split; [done |]. by apply reject_request_refused.
Qed.

(** X11.  [accept_request] resolves one request only: every other
    request, pending ones for the same item included, is left as it was,
    and so are the users and every item but the request's. *)
Theorem accept_request_frame request_id now st :
  users (accept_request request_id now st).2 = users st ∧
  (∀ id, id ≠ request_id →
         requests (accept_request request_id now st).2 !! id
         = requests st !! id) ∧
  (∀ r id, requests st !! request_id = Some r → id ≠ pendrive_id r →
           pendrives (accept_request request_id now st).2 !! id
           = pendrives st !! id).
Proof.
  destruct (accept_request_cases request_id now st)
    as [(r & Hr & Hs) | [_ ->]].
  - rewrite (accept_request_pending _ r) by done. simpl.
    split; [done |]. split.
    + intros id Hne. by rewrite lookup_insert_ne.
    + intros r' id Hr' Hne. assert (r' = r) as -> by congruence.
      by rewrite lookup_alter_ne.
  - done.
Qed.

Lemma accept_request_frame_witness :
  requests (accept_request 2 "2024-01-02 09:10:00"
              (exec_all [(CreateRequest 1 1 1 "", at_time "2024-01-02 09:00:00");
                         (CreateRequest 1 2 1 "", at_time "2024-01-02 09:05:00")]
                        one_drive)).2 !! 1
  = Some (RequestRow 1 1 1 "pending" (Some "") "2024-01-02 09:00:00" None).
Proof.
  destruct (accept_request_frame 2 "2024-01-02 09:10:00"
              (exec_all [(CreateRequest 1 1 1 "", at_time "2024-01-02 09:00:00");
                         (CreateRequest 1 2 1 "", at_time "2024-01-02 09:05:00")]
                        one_drive)) as (_ & Hreq & _).
  rewrite Hreq by discriminate. vm_compute. reflexivity.
Defined.

(** X12.  Accepting one request does not settle its competitors.  Of two
    pending requests for the same existing item both can be accepted, one
    after the other; the item ends with the second request's requester,
    and the last row of the log about the item is a transfer from the
    owner snapshotted in the second request, whoever held the item in
    between. *)
Theorem accept_competing_requests rid1 rid2 r1 r2 p t1 t2 st :
  rid1 ≠ rid2 →
  requests st !! rid1 = Some r1 → status r1 = "pending" →
  requests st !! rid2 = Some r2 → status r2 = "pending" →
  pendrive_id r1 = pendrive_id r2 →
  pendrives st !! pendrive_id r2 = Some p →
  ∃ st1 st2 tid,
    accept_request rid1 t1 st = (Done true, st1) ∧
    accept_request rid2 t2 st1 = (Done true, st2) ∧
    pendrives st2 !! pendrive_id r2 =
      Some (PendriveRow (name p) (description p) (Some (requester_id r2))
                        (pendrive_created_at p)) ∧
    last_transaction (transactions st2) (pendrive_id r2) tid
      (TransactionRow (pendrive_id r2) (Some (current_owner_id r2))
                      (requester_id r2) "transfer" (late t2)).
Proof.
  intros Hne Hr1 Hs1 Hr2 Hs2 Hsame Hp.
  eexists _, _, _.
  split; [by apply accept_request_pending |].
  split.
  { apply accept_request_pending; [| done]. simpl.
    by rewrite lookup_insert_ne. }
  simpl. split.
  - rewrite Hsame, lookup_alter_eq, lookup_alter_eq, Hp. done.
  - apply last_transaction_insert_new; [| done].
    intros j u. apply next_rowid_gt.
Qed.

Lemma accept_competing_requests_witness :
  let st := exec_all [(CreateRequest 1 2 1 "", at_time "2024-01-02 09:00:00");
                      (CreateRequest 1 3 1 "", at_time "2024-01-02 09:05:00")]
                     one_drive in
  ∃ st1 st2 tid,
    accept_request 1 "2024-01-03 08:00:00" st = (Done true, st1) ∧
    accept_request 2 (Clock "2024-01-03 08:05:00" "2024-01-03 08:05:01") st1
    = (Done true, st2) ∧
    pendrives st2 !! 1 =
      Some (PendriveRow "Drive A" (Some "") (Some 3) "2024-01-01 10:00:00") ∧
    last_transaction (transactions st2) 1 tid
      (TransactionRow 1 (Some 1) 3 "transfer" "2024-01-03 08:05:01").
Proof.
  intros st.
  apply (accept_competing_requests 1 2
           (RequestRow 1 2 1 "pending" (Some "") "2024-01-02 09:00:00" None)
           (RequestRow 1 3 1 "pending" (Some "") "2024-01-02 09:05:00" None)
           (PendriveRow "Drive A" (Some "") (Some 1) "2024-01-01 10:00:00")
           "2024-01-03 08:00:00"
           (Clock "2024-01-03 08:05:00" "2024-01-03 08:05:01") st).
  - discriminate.
  - vm_compute. reflexivity.
  - reflexivity.
  - vm_compute. reflexivity.
  - reflexivity.
  - reflexivity.
  - vm_compute. reflexivity.
Defined.

(** ** The lists of items *)

Lemma elem_of_get_user_dgscs user_id st row :
  row ∈ get_user_dgscs user_id st ↔
  ∃ id p, pendrives st !! id = Some p ∧ owner p = Some user_id ∧
          row = (id, name p, description p, pendrive_created_at p).
Proof.
  unfold get_user_dgscs. rewrite list_elem_of_omap. split.
  - intros ([id p] & Hin%elem_of_scan & Hrow). simpl in Hrow.
    case_bool_decide as Ho; [| done]. injection Hrow as <-. by exists id, p.
  - intros (id & p & Hp & Ho & ->). exists (id, p).
    split; [by apply elem_of_scan |]. simpl. by rewrite bool_decide_true.
Qed.

(** X13.  An item is on one user's list at a time, and a transfer moves
    it: after a pending request for an existing item is accepted, the
    item is on the requester's list and on nobody else's, and every other
    item is on the lists it was on. *)
Theorem accept_request_moves_item request_id r p now st :
  requests st !! request_id = Some r → status r = "pending" →
  pendrives st !! pendrive_id r = Some p →
  ∀ user_id row,
    row ∈ get_user_dgscs user_id (accept_request request_id now st).2 ↔
    (user_id = requester_id r ∧
     row = (pendrive_id r, name p, description p, pendrive_created_at p)) ∨
    (row.1.1.1 ≠ pendrive_id r ∧ row ∈ get_user_dgscs user_id st).
Proof.
  intros Hr Hs Hp user_id row.
  rewrite (accept_request_pending _ r) by done.
  rewrite !elem_of_get_user_dgscs. simpl. split.
  - intros (id & p' & Hp' & Ho & ->). rewrite lookup_alter in Hp'.
    case_decide as Hk.
    + subst id. rewrite Hp in Hp'. injection Hp' as <-. simpl in Ho.
      left. split; [congruence | done].
    + right. split; [simpl; congruence |]. by exists id, p'.
  - intros [[-> ->] | (Hne & id & p' & Hp' & Ho & ->)].
    + exists (pendrive_id r), (set_owner (Some (requester_id r)) p).
      by rewrite lookup_alter_eq, Hp.
    + simpl in Hne. exists id, p'. by rewrite lookup_alter_ne.
Qed.

Lemma accept_request_moves_item_witness :
  (1, "Drive A", Some "", "2024-01-01 10:00:00")
    ∈ get_user_dgscs 2 (accept_request 1 "2024-01-03 08:00:00" one_request).2.
Proof.
  apply (accept_request_moves_item 1
           (RequestRow 1 2 1 "pending" (Some "please") "2024-01-02 09:00:00" None)
           (PendriveRow "Drive A" (Some "") (Some 1) "2024-01-01 10:00:00")
           "2024-01-03 08:00:00" one_request).
  - vm_compute. reflexivity.
  - reflexivity.
  - vm_compute. reflexivity.
  - left. split; reflexivity.
Defined.

(** ** More on search *)

Lemma like_from_percent_here p s :
  like_from p s = true → like_from (String "%" p) s = true.
Proof. intros H. destruct s; cbn [like_from]; simpl; by rewrite H. Qed.









Lemma filter_ext_in {A : Type} (P Q : A → Prop)
    `{∀ x, Decision (P x)} `{∀ x, Decision (Q x)} (l : list A) :
  (∀ x, x ∈ l → P x ↔ Q x) → filter P l = filter Q l.
Proof.
  induction l as [| x l IH]; intros Hall; [done |].
  assert (Hx : P x ↔ Q x) by (apply Hall; left).
  rewrite !filter_cons, IH by (intros y Hy; apply Hall; by right).
  destruct (decide (P x)), (decide (Q x)); tauto || done.
Qed.

Lemma filter_all {A : Type} (P : A → Prop) `{∀ x, Decision (P x)} (l : list A) :
  (∀ x, x ∈ l → P x) → filter P l = l.
Proof.
  induction l as [| x l IH]; intros Hall; [done |].
  rewrite filter_cons_True by (apply Hall; left).
  f_equal. apply IH. intros y Hy. apply Hall. by right.
Qed.

(** X15.  A search for the empty term, or for "%", returns every item:
    the method itself does not reject an empty term. *)
Theorem search_dgsc_everything st :
  search_dgsc "" st = join_owner st <$> scan (pendrives st) ∧
  search_dgsc "%" st = join_owner st <$> scan (pendrives st).
Proof.
  unfold search_dgsc. split; f_equal; apply filter_all; intros [id p] _;
    apply Is_true_true, orb_true_iff; left; unfold like.
  - change (c_string ("%" +:+ "" +:+ "%")) with "%%".
    apply (like_from_percent_here "%"), like_from_percent.
  - change (c_string ("%" +:+ "%" +:+ "%")) with "%%%".
    apply (like_from_percent_here "%%"), (like_from_percent_here "%"),
      like_from_percent.
Qed.

Lemma tolower_idem c : tolower (tolower c) = tolower c.
Proof. destruct c as [[] [] [] [] [] [] [] []]; reflexivity. Qed.

Lemma tolower_percent c : tolower c = "%"%char → c = "%"%char.
Proof.
  destruct c as [[] [] [] [] [] [] [] []]; vm_compute; intros H;
    first [reflexivity | discriminate H].
Qed.

Lemma tolower_underscore c : tolower c = "_"%char → c = "_"%char.
Proof.
  destruct c as [[] [] [] [] [] [] [] []]; vm_compute; intros H;
    first [reflexivity | discriminate H].
Qed.

Lemma tolower_nul c : tolower c = "000"%char → c = "000"%char.
Proof.
  destruct c as [[] [] [] [] [] [] [] []]; vm_compute; intros H;
    first [reflexivity | discriminate H].
Qed.

Lemma fold_case_c_string p : fold_case (c_string p) = c_string (fold_case p).
Proof.
  induction p as [| c p IH]; [done |]. cbn [c_string fold_case].
  destruct (decide (c = "000"%char)) as [-> | Hc].
  - change (tolower "000") with "000"%char. by rewrite !bool_decide_true.
  - rewrite (bool_decide_false (c = "000"%char)) by done.
    rewrite (bool_decide_false (tolower c = "000"%char))
      by (intros H%tolower_nul; done).
    cbn [fold_case]. by rewrite IH.
Qed.

(** LIKE reads a pattern up to the case of its letters. *)
Lemma like_from_fold_case p s : like_from (fold_case p) s = like_from p s.
Proof.
  revert s. induction p as [| c p IH]; intros s; [done |].
  cbn [fold_case like_from].
  destruct (decide (c = "%"%char)) as [-> | Hc1].
  { change (tolower "%") with "%"%char. rewrite !bool_decide_true by done.
    induction s as [| d s IHs]; rewrite IH; [done |]. by rewrite IHs. }
  rewrite (bool_decide_false (c = "%"%char)) by done.
  rewrite (bool_decide_false (tolower c = "%"%char))
    by (intros H%tolower_percent; done).
  destruct (decide (c = "_"%char)) as [-> | Hc2].
  { change (tolower "_") with "_"%char. rewrite !bool_decide_true by done.
    destruct s; [done | apply IH]. }
  rewrite (bool_decide_false (c = "_"%char)) by done.
  rewrite (bool_decide_false (tolower c = "_"%char))
    by (intros H%tolower_underscore; done).
  destruct s as [| d s]; [done |]. by rewrite tolower_idem, IH.
Qed.

Lemma fold_case_append a b : fold_case (a +:+ b) = fold_case a +:+ fold_case b.
Proof.
  induction a as [| c a IH]; [done |].
  change (String c a +:+ b) with (String c (a +:+ b)).
  cbn [fold_case]. rewrite IH. done.
Qed.

(** X16.  The search does not look at the case of the letters A-Z in the
    term: two terms that differ only in that return the same rows. *)
Theorem search_dgsc_term_case t t' st :
  fold_case t = fold_case t' →
  search_dgsc t st = search_dgsc t' st.
Proof.
  intros Hfold.
  assert (Hlike : ∀ s, like s ("%" +:+ t +:+ "%") = like s ("%" +:+ t' +:+ "%")).
  { intros s. unfold like.
    rewrite <- (like_from_fold_case (c_string ("%" +:+ t +:+ "%"))).
    rewrite <- (like_from_fold_case (c_string ("%" +:+ t' +:+ "%"))).
    by rewrite !fold_case_c_string, !fold_case_append, Hfold. }
  unfold search_dgsc. f_equal. apply list_filter_iff. intros [id p].
  cbn [snd]. rewrite Hlike. unfold like_null.
  destruct (description p); by rewrite ?Hlike.
Qed.

Lemma search_dgsc_term_case_witness :
  search_dgsc "DRIVE" three_items = search_dgsc "drive" three_items.
Proof. apply (search_dgsc_term_case "DRIVE" "drive" three_items). reflexivity. Defined.

(** ** The lists of requests *)

Lemma elem_of_get_pending_requests_for_user user_id st row :
  row ∈ get_pending_requests_for_user user_id st ↔
  ∃ id r p u,
    requests st !! id = Some r ∧
    current_owner_id r = user_id ∧ status r = "pending" ∧
    pendrives st !! pendrive_id r = Some p ∧
    users st !! requester_id r = Some u ∧
    row = (id, pendrive_id r, name p, requester_id r,
           username u, first_name u, message r, request_created_at r).
Proof.
  unfold get_pending_requests_for_user. rewrite list_elem_of_omap. split.
  - intros ([id r] & Hin%elem_of_scan & Hrow). cbn [fst snd] in Hrow.
    case_bool_decide as Hc; [| done]. destruct Hc as [Ho Hs].
    destruct (pendrives st !! pendrive_id r) as [p |] eqn:Hp; [| done].
    destruct (users st !! requester_id r) as [u |] eqn:Hu; [| done].
    simpl in Hrow. injection Hrow as <-. by exists id, r, p, u.
  - intros (id & r & p & u & Hr & Ho & Hs & Hp & Hu & ->). exists (id, r).
    split; [by apply elem_of_scan |]. cbn [fst snd].
    rewrite bool_decide_true by done. by rewrite Hp, Hu.
Qed.

(** X17.  A new request shows up where it should, if it can: after
    [create_request], its integers fitting 64 bits, the pending list of
    the owner named in the call is the old list followed by the new
    request, provided the item exists and the requester has a row in
    [users]; when either is missing the request is stored but the
    owner's list does not show it.  The lists of all other users are as
    before.  When an integer does not fit, [create_request] raises
    [OverflowError] and every list is as before. *)
Theorem create_request_listed dgsc_id requester current_owner msg now st :
  (in_int64 dgsc_id → in_int64 requester → in_int64 current_owner →
   ∃ request_id st',
     create_request dgsc_id requester current_owner msg now st
     = (Done request_id, st') ∧
     requests st' !! request_id =
       Some (RequestRow dgsc_id requester current_owner "pending"
                        (Some msg) (early now) None) ∧
     ∀ user_id,
       get_pending_requests_for_user user_id st' =
       get_pending_requests_for_user user_id st ++
       match pendrives st !! dgsc_id, users st !! requester with
       | Some p, Some u =>
           if bool_decide (user_id = current_owner)
           then [(request_id, dgsc_id, name p, requester,
                  username u, first_name u, Some msg, early now)]
           else []
       | _, _ => []
       end) ∧
  (¬ (in_int64 dgsc_id ∧ in_int64 requester ∧ in_int64 current_owner) →
   (create_request dgsc_id requester current_owner msg now st).1
   = Raised OverflowError ∧
   ∀ user_id,
     get_pending_requests_for_user user_id
       (create_request dgsc_id requester current_owner msg now st).2
     = get_pending_requests_for_user user_id st).
Proof.
  split; [| intros Hout; by rewrite create_request_overflow].
  intros Hd Hq Ho.
  eexists _, _. split; [by apply create_request_in_range |].
  cbn [requests pendrives users].
  split; [apply lookup_insert_eq |]. intros user_id.
  unfold get_pending_requests_for_user. cbn [requests pendrives users].
  rewrite scan_insert_last by (intros j w; apply next_rowid_gt).
  rewrite omap_app. f_equal. simpl.
  destruct (decide (user_id = current_owner)) as [-> | Hne].
  - rewrite !bool_decide_true by done.
    destruct (pendrives st !! dgsc_id); [| done].
    by destruct (users st !! requester).
  - rewrite bool_decide_false by (intros [? _]; congruence).
    destruct (pendrives st !! dgsc_id); [| done].
    destruct (users st !! requester); [| done].
    by rewrite bool_decide_false.
Qed.

Lemma create_request_listed_witness :
  (∃ request_id st',
     create_request 1 2 7 "soon" "2024-01-03 09:00:00" family_name_only
     = (Done request_id, st') ∧
     get_pending_requests_for_user 7 st' =
       get_pending_requests_for_user 7 family_name_only ++
       [(request_id, 1, "Drive A", 2, Some "bob", Some "Bob", Some "soon",
         "2024-01-03 09:00:00")]) ∧
  get_pending_requests_for_user 7
    (create_request 1 2 9223372036854775808 "soon" "2024-01-03 09:00:00"
                    family_name_only).2
  = get_pending_requests_for_user 7 family_name_only.
Proof.
  split.
  - destruct (create_request_listed 1 2 7 "soon" "2024-01-03 09:00:00"
                family_name_only) as [Hin _].
    destruct Hin as (rid & st' & Hret & _ & Hlist);
      [unfold in_int64; lia | unfold in_int64; lia | unfold in_int64; lia |].
    exists rid, st'. split; [exact Hret |]. rewrite (Hlist 7).
    f_equal.
  - apply (create_request_listed 1 2 9223372036854775808 "soon"
             "2024-01-03 09:00:00" family_name_only).
    unfold in_int64. lia.
Defined.

(** X18.  A resolved request is on nobody's pending list: after
    [accept_request] or [reject_request] on an id, whatever they return,
    no row of any pending list has that id. *)
Theorem resolved_not_listed request_id now st user_id :
  Forall (λ row : pending_request_info, row.1.1.1.1.1.1.1 ≠ request_id)
         (get_pending_requests_for_user user_id
            (accept_request request_id now st).2) ∧
  Forall (λ row : pending_request_info, row.1.1.1.1.1.1.1 ≠ request_id)
         (get_pending_requests_for_user user_id
            (reject_request request_id now st).2).
Proof.
  assert (Hgen : ∀ st', (∀ r, requests st' !! request_id = Some r →
                              status r ≠ "pending") →
                        Forall (λ row : pending_request_info,
                                  row.1.1.1.1.1.1.1 ≠ request_id)
                               (get_pending_requests_for_user user_id st')).
  { intros st' Hno. apply Forall_forall. intros row.
    intros (id & r & p & u & Hr & _ & Hs & _ & _ & ->)%elem_of_get_pending_requests_for_user.
    simpl. intros ->. by apply (Hno r). }
  split; apply Hgen; intros r'.
  - destruct (accept_request_cases request_id now st)
      as [(r & Hr & Hs) | [Hno ->]].
    + rewrite (accept_request_pending _ r) by done. simpl.
      rewrite lookup_insert_eq. by intros [= <-].
    + apply Hno.
  - destruct (reject_request_cases request_id now st)
      as [(r & Hr & Hs) | [Hno ->]].
    + rewrite (reject_request_pending _ r) by done. simpl.
      rewrite lookup_insert_eq. by intros [= <-].
    + apply Hno.
Qed.

(** ** Looking an item up *)



(** ** Asking for an item through the bot *)



(** ** The names shown *)

Lemma rstrip_idem s : rstrip (rstrip s) = rstrip s.
Proof.
  induction s as [| c s IH]; [done |]. cbn [rstrip].
  destruct (rstrip s) as [| d r] eqn:Hr.
  - destruct (isspace c) eqn:Hc; [done |]. cbn [rstrip]. by rewrite Hc.
  - cbn [rstrip]. fold rstrip. cbn [rstrip] in IH. by rewrite IH.
Qed.

Lemma lstrip_head s :
  lstrip s = "" ∨ ∃ c t, lstrip s = String c t ∧ isspace c = false.
Proof.
  induction s as [| c s IH]; [by left |]. cbn [lstrip].
  destruct (isspace c) eqn:Hc; [done |]. right. by exists c, s.
Qed.

Lemma rstrip_head c t :
  isspace c = false → ∃ t', rstrip (String c t) = String c t'.
Proof.
  intros Hc. cbn [rstrip]. destruct (rstrip t); rewrite ?Hc; eauto.
Qed.

(** Stripping twice is stripping once. *)
Lemma strip_idem s : strip (strip s) = strip s.
Proof.
  unfold strip. destruct (lstrip_head s) as [-> | (c & t & -> & Hc)]; [done |].
  destruct (rstrip_head c t Hc) as [t' Ht']. rewrite Ht' at 1.
  cbn [lstrip]. rewrite Hc, <- Ht'. apply rstrip_idem.
Qed.

Lemma rstrip_nonspace s :
  Forall (λ c, isspace c = false) (list_ascii_of_string s) → rstrip s = s.
Proof.
  induction s as [| c s IH]; [done |]. simpl.
  intros [Hc Hs]%Forall_cons. rewrite IH by done.
  destruct s; by rewrite ?Hc.
Qed.

Lemma rstrip_append a d :
  d ≠ "" →
  Forall (λ c, isspace c = false) (list_ascii_of_string d) →
  rstrip (a +:+ d) = a +:+ d.
Proof.
  intros Hd Hall. induction a as [| c a IH]; [by apply rstrip_nonspace |].
  change (String c a +:+ d) with (String c (a +:+ d)).
  cbn [rstrip]. rewrite IH.
  destruct (a +:+ d) eqn:Hempty; [| done].
  destruct a; [done | discriminate Hempty].
Qed.

Lemma string_of_uint_nonspace d :
  Forall (λ c, isspace c = false)
         (list_ascii_of_string (NilEmpty.string_of_uint d)).
Proof. induction d; simpl; by constructor. Qed.

Lemma fmt_int_nonspace x :
  fmt_int x ≠ "" ∧
  Forall (λ c, isspace c = false) (list_ascii_of_string (fmt_int x)).
Proof.
  destruct x as [n |]; [| split; [done | by repeat constructor]].
  unfold fmt_int, str_int, NilZero.string_of_int, NilZero.string_of_uint.
  destruct (Z.to_int n) as [d | d]; destruct d; simpl;
    (split; [done |]); repeat (constructor; [done |]);
    first [apply string_of_uint_nonspace | by constructor].
Qed.

Lemma fallback_shown x :
  "User " +:+ fmt_int x ≠ "" ∧ strip ("User " +:+ fmt_int x) = "User " +:+ fmt_int x.
Proof.
  split; [done |]. destruct (fmt_int_nonspace x) as [Hne Hall].
  unfold strip. change (lstrip ("User " +:+ fmt_int x)) with ("User " +:+ fmt_int x).
  by apply rstrip_append.
Qed.

Lemma and_strip_shown x t : and_strip x = Some t → t ≠ "" ∧ strip t = t.
Proof.
  destruct x as [s |]; [| done]. unfold and_strip.
  repeat case_bool_decide; try done. intros [= <-]. split; [done |].
  apply strip_idem.
Qed.

Lemma shown_or_else x fallback :
  fallback ≠ "" ∧ strip fallback = fallback →
  match and_strip x with Some shown => shown | None => fallback end ≠ "" ∧
  strip (match and_strip x with Some shown => shown | None => fallback end)
  = match and_strip x with Some shown => shown | None => fallback end.
Proof.
  intros Hf. destruct (and_strip x) as [t |] eqn:Hx; [| done].
  by apply and_strip_shown in Hx.
Qed.

(** X21.  Whatever the stored names are, the name shown for an owner or
    a requester in the search, the item list, the request prompt and the
    two request lists is never empty and never begins or ends with
    white space. *)
Theorem display_name_shown (row : dgsc_info) (t : timestamp)
    (mine : user_request_info) (pending : pending_request_info) :
  Forall (λ s, s ≠ "" ∧ strip s = s)
    [search_owner_display row; list_owner_display (row, t);
     request_start_owner_name row; my_requests_owner_display mine;
     pending_requester_display pending].
Proof.
  destruct row as [[[[[[id n] d] o] un] fn] ln].
  destruct mine as [[[[[[[rid did] dn] oid] oun] ofn] s] ct].
  destruct pending as [[[[[[[rid' did'] dn'] q] qun] qfn] msg] ct'].
  unfold search_owner_display, list_owner_display, request_start_owner_name,
    my_requests_owner_display, pending_requester_display.
  repeat (constructor;
          [repeat apply shown_or_else;
           first [apply (fallback_shown o) | apply (fallback_shown (Some oid))
                 | apply (fallback_shown (Some q))] |]).
  constructor.
Qed.

(** ** The Accept and Reject buttons *)

Lemma after_prefix_append prefix s : after_prefix prefix (prefix +:+ s) = Some s.
Proof.
  induction prefix as [| c prefix IH]; [by destruct s |].
  change (String c prefix +:+ s) with (String c (prefix +:+ s)).
  cbn [after_prefix]. by rewrite bool_decide_true.
Qed.

Lemma chop_newline_nonspace s :
  Forall (λ c, isspace c = false) (list_ascii_of_string s) → chop_newline s = s.
Proof.
  induction s as [| c s IH]; [done |]. simpl list_ascii_of_string.
  intros [Hc Hs]%Forall_cons. cbn [chop_newline]. rewrite IH by done.
  destruct s; [| done]. rewrite bool_decide_false; [done |].
  intros ->. discriminate Hc.
Qed.

(** The digits written for a non-negative id read back as that id. *)
Lemma digits_to_end_str_int n :
  0 ≤ n → ∃ digits, digits_to_end (str_int n) = Some digits ∧ Z.of_uint digits = n.
Proof.
  intros Hn. destruct n as [| p | p]; [by exists (Decimal.D0 Decimal.Nil) | | lia].
  exists (Pos.to_uint p). split.
  - unfold digits_to_end, str_int. cbn [Z.to_int NilZero.string_of_int].
    pose proof (Unsigned.to_uint_nonnil p) as Hnil.
    assert (Hs : NilZero.string_of_uint (Pos.to_uint p)
                 = NilEmpty.string_of_uint (Pos.to_uint p)).
    { unfold NilZero.string_of_uint. by destruct (Pos.to_uint p). }
    rewrite Hs, chop_newline_nonspace by apply string_of_uint_nonspace.
    rewrite NilEmpty.usu. by destruct (Pos.to_uint p).
  - exact (DecimalZ.of_to (Z.pos p)).
Qed.

Lemma digits_to_end_negative n : n < 0 → digits_to_end (str_int n) = None.
Proof.
  intros Hn. destruct n as [| p | p]; [lia | lia |].
  unfold digits_to_end, str_int. cbn [Z.to_int NilZero.string_of_int].
  set (s := NilZero.string_of_uint (Pos.to_uint p)).
  assert (Hs : ∃ c s', s = String c s').
  { unfold s, NilZero.string_of_uint.
    pose proof (Unsigned.to_uint_nonnil p) as Hnil.
    destruct (Pos.to_uint p); simpl; by eauto. }
  destruct Hs as (c & s' & ->). cbn [chop_newline NilEmpty.uint_of_string].
  by destruct (NilEmpty.uint_of_string _).
Qed.

Lemma handle_callback_button req_id now st :
  0 ≤ req_id →
  handle_callback (accept_button req_id) now st
  = Some (accept_request req_id now st) ∧
  handle_callback (reject_button req_id) now st
  = Some (reject_request req_id now st).
Proof.
  unfold handle_callback, accept_button, reject_button.
  rewrite (after_prefix_append "accept_").
  change (after_prefix "accept_" ("reject_" +:+ str_int req_id)) with (@None string).
  rewrite (after_prefix_append "reject_").
  intros (digits & -> & <-)%digits_to_end_str_int. done.
Qed.

(** X22.  A button resolves the request it was made for: the callback
    data written into the Accept button of a request with a non-negative
    id passes the handler's filter and makes [handle_callback] call
    [accept_request] on exactly that id, and likewise for Reject; data
    written for a negative id would not pass the filter. *)
Theorem button_round_trip req_id now st :
  (0 ≤ req_id →
   handle_callback (accept_button req_id) now st
   = Some (accept_request req_id now st) ∧
   handle_callback (reject_button req_id) now st
   = Some (reject_request req_id now st)) ∧
  (req_id < 0 →
   handle_callback (accept_button req_id) now st = None ∧
   handle_callback (reject_button req_id) now st = None).
Proof.
  split; [apply handle_callback_button |].
  unfold handle_callback, accept_button, reject_button.
  rewrite (after_prefix_append "accept_").
  change (after_prefix "accept_" ("reject_" +:+ str_int req_id)) with (@None string).
  rewrite (after_prefix_append "reject_").
  intros ->%digits_to_end_negative. done.
Qed.

Lemma button_round_trip_witness :
  handle_callback "accept_1" "2024-01-03 08:00:00" one_request
  = Some (accept_request 1 "2024-01-03 08:00:00" one_request) ∧
  handle_callback (reject_button (-1)) "2024-01-03 08:00:00" one_request = None.
Proof.
  destruct (button_round_trip 1 "2024-01-03 08:00:00" one_request) as [Hyes _].
  destruct (button_round_trip (-1) "2024-01-03 08:00:00" one_request) as [_ Hno].
  split; [apply Hyes; lia | apply Hno; lia].
Defined.

(** In a reachable database a pending request has no resolution time. *)
Lemma reachable_pending_unresolved st id r :
  reachable st →
  requests st !! id = Some r →
  status r = "pending" →
  resolved_at r = None.
Proof.
  intros Hst. revert id r.
  induction Hst as [| c now st Hst IH]; intros id r Hid Hs; [done |].
  destruct (exec_requests_backward c now st id r Hid)
    as [Hsame | [(_ & _ & Hnull) | (r0 & _ & _ & [[_ ->] | [_ ->]])]];
    [by eapply IH | done | done | done].
Qed.

(** X23.  Every request on a pending list can be resolved from there.  In
    a reachable database a row of a user's pending list is a request
    stored under the row's id, pending and unresolved, for the row's
    item, by the row's requester, with that user as snapshotted owner.
    Pressing its Accept button makes [accept_request] return True and
    leaves that request accepted, resolved at the time of the UPDATE and
    otherwise as it was; pressing its Reject button makes
    [reject_request] return True and leaves it rejected likewise. *)
Theorem listed_request_resolvable st user_id id dgsc_id n requester un fn msg
    created now :
  reachable st →
  (id, dgsc_id, n, requester, un, fn, msg, created)
    ∈ get_pending_requests_for_user user_id st →
  ∃ st1 st2,
    requests st !! id =
      Some (RequestRow dgsc_id requester user_id "pending" msg created None) ∧
    handle_callback (accept_button id) now st = Some (Done true, st1) ∧
    requests st1 !! id =
      Some (RequestRow dgsc_id requester user_id "accepted" msg created
                       (Some (early now))) ∧
    handle_callback (reject_button id) now st = Some (Done true, st2) ∧
    requests st2 !! id =
      Some (RequestRow dgsc_id requester user_id "rejected" msg created
                       (Some (early now))).
Proof.
  intros Hst (id' & r & p & u & Hr & Ho & Hs & _ & _ & Hrow)%elem_of_get_pending_requests_for_user.
  injection Hrow as -> -> _ -> _ _ -> ->.
  assert (Hid : 0 ≤ id').
  { destruct (reachable_counters st Hst) as (_ & (_ & Hdom) & _).
    assert (is_Some (requests st !! id')) as Hin%Hdom by eauto. lia. }
  pose proof (reachable_pending_unresolved st id' r Hst Hr Hs) as Hnull.
  destruct (handle_callback_button id' now st Hid) as [Ha Hj].
  rewrite Ha, Hj, (accept_request_pending _ r), (reject_request_pending _ r)
    by done.
  destruct r as [rp rq ro rs rm rc rr]. cbn in Ho, Hs, Hnull. subst ro rs rr.
  eexists _, _. split; [done |]. split; [done |]. cbn [requests].
  split; [by rewrite lookup_insert_eq |]. split; [done |].
  cbn [requests]. by rewrite lookup_insert_eq.
Qed.

Lemma listed_request_resolvable_witness :
  ∃ st1 st2,
    requests family_name_only !! 2 =
      Some (RequestRow 2 7 2 "pending" (Some "") "2024-01-02 09:05:00" None) ∧
    handle_callback "accept_2" "2024-01-03 08:00:00" family_name_only
    = Some (Done true, st1) ∧
    requests st1 !! 2 =
      Some (RequestRow 2 7 2 "accepted" (Some "") "2024-01-02 09:05:00"
                       (Some "2024-01-03 08:00:00")) ∧
    handle_callback "reject_2" "2024-01-03 08:00:00" family_name_only
    = Some (Done true, st2) ∧
    requests st2 !! 2 =
      Some (RequestRow 2 7 2 "rejected" (Some "") "2024-01-02 09:05:00"
                       (Some "2024-01-03 08:00:00")).
Proof.
  apply (listed_request_resolvable family_name_only 2
           2 2 "Drive B" 7 None (Some "") (Some "") "2024-01-02 09:05:00"
           "2024-01-03 08:00:00").
  - apply reachable_exec_all, reachable_init.
  - assert (Hlist : get_pending_requests_for_user 2 family_name_only =
                    [(2, 2, "Drive B", 7, None, Some "", Some "",
                      "2024-01-02 09:05:00")]) by (vm_compute; reflexivity).
    rewrite Hlist. apply list_elem_of_here.
Defined.

(** ** Registering an item through the bot *)




(** ** A requester's own requests *)

Lemma elem_of_user_request_rows user_id st row :
  row ∈ user_request_rows user_id st ↔
  ∃ id r p u,
    requests st !! id = Some r ∧ requester_id r = user_id ∧
    pendrives st !! pendrive_id r = Some p ∧
    users st !! current_owner_id r = Some u ∧
    row = (id, pendrive_id r, name p, current_owner_id r,
           username u, first_name u, status r, request_created_at r).
Proof.
  unfold user_request_rows. rewrite list_elem_of_omap. split.
  - intros ([id r] & Hin%elem_of_scan & Hrow). cbn [fst snd] in Hrow.
    case_bool_decide as Hc; [| done].
    destruct (pendrives st !! pendrive_id r) as [p |] eqn:Hp; [| done].
    destruct (users st !! current_owner_id r) as [u |] eqn:Hu; [| done].
    simpl in Hrow. injection Hrow as <-. by exists id, r, p, u.
  - intros (id & r & p & u & Hr & Ho & Hp & Hu & ->). exists (id, r).
    split; [by apply elem_of_scan |]. cbn [fst snd].
    rewrite bool_decide_true by done. by rewrite Hp, Hu.
Qed.

(** No call removes a user. *)
Lemma exec_users_forward c now st user_id u :
  users st !! user_id = Some u → is_Some (users (exec c now st) !! user_id).
Proof.
  intros Hu. pose proof (exec_step c now st) as Hstep.
  destruct Hstep; simpl; eauto.
  rewrite lookup_insert. case_decide; eauto.
Qed.

(** A call leaves what a request asks for as it is. *)
Lemma exec_request_fields c now st id r :
  requests st !! id = Some r →
  ∃ r',
    requests (exec c now st) !! id = Some r' ∧
    pendrive_id r' = pendrive_id r ∧ requester_id r' = requester_id r ∧
    current_owner_id r' = current_owner_id r ∧ message r' = message r ∧
    request_created_at r' = request_created_at r.
Proof.
  intros Hid. destruct (exec_requests_forward c now st id r Hid) as [r' Hr'].
  exists r'. split; [done |].
  destruct (exec_requests_backward c now st id r' Hr')
    as [Hsame | [(Hnone & _) | (r0 & Hr0 & _ & [[_ ->] | [_ ->]])]].
  - by assert (r' = r) as -> by congruence.
  - congruence.
  - by assert (r0 = r) as -> by congruence.
  - by assert (r0 = r) as -> by congruence.
Qed.

(** X25.  A requester's history is kept: a request that is among the
    rows of [get_user_requests] for a user is still among them after any
    call, under the same id and with the same item, item name, owner id
    and creation time, whether or not it has been resolved meanwhile. *)
Theorem user_request_rows_kept c now st user_id row :
  row ∈ user_request_rows user_id st →
  ∃ row',
    row' ∈ user_request_rows user_id (exec c now st) ∧
    row'.1.1.1.1 = row.1.1.1.1 ∧ row'.2 = row.2.
Proof.
  intros (id & r & p & u & Hr & Hq & Hp & Hu & ->)%elem_of_user_request_rows.
  destruct (exec_request_fields c now st id r Hr)
    as (r' & Hr' & Hrp & Hrq & Hro & _ & Hrc).
  pose proof (exec_step c now st) as Hstep.
  destruct (step_pendrives_forward _ _ _ _ _ _ Hstep Hp) as [p' Hp'].
  destruct (step_pendrives_backward _ _ _ _ _ _ Hstep Hp')
    as [(p0 & Hp0 & Hn & _) | (Hnone & _)]; [| congruence].
  assert (p0 = p) as -> by congruence.
  destruct (exec_users_forward c now st _ u Hu) as [u' Hu'].
  exists (id, pendrive_id r', name p', current_owner_id r',
          username u', first_name u', status r', request_created_at r').
  split.
  - apply elem_of_user_request_rows. exists id, r', p', u'.
    rewrite Hrp, Hro. repeat split; congruence.
  - simpl. by rewrite Hrp, Hro, Hn, Hrc.
Qed.

Lemma user_request_rows_kept_witness :
  ∃ row',
    row' ∈ user_request_rows 2
             (exec (AcceptRequest 1) "2024-01-03 08:00:00" family_name_only) ∧
    row'.1.1.1.1 = (1, 1, "Drive A", 7) ∧ row'.2 = "2024-01-02 09:00:00".
Proof.
  apply (user_request_rows_kept (AcceptRequest 1) "2024-01-03 08:00:00"
           family_name_only 2
           (1, 1, "Drive A", 7, None, Some "", "pending", "2024-01-02 09:00:00")).
  assert (Hlist : user_request_rows 2 family_name_only =
                  [(1, 1, "Drive A", 7, None, Some "", "pending",
                    "2024-01-02 09:00:00")]) by (vm_compute; reflexivity).
  rewrite Hlist. apply list_elem_of_here.
Defined.

(** ** Search terms without wildcards *)

(** X26.  For a term that contains neither [%] nor [_] the search is a
    plain substring search: it returns, in rowid order, exactly the items
    whose name or description contains the term, the letters A-Z and a-z
    compared without regard to case.  This is so for texts that LIKE
    reads in full: the term and the stored names and descriptions hold
    no U+0000, and the pattern made from the term stays within the 50000
    bytes SQLite accepts. *)
Theorem search_dgsc_literal_term term st :
  wildcard_free term →
  nul_free term →
  utf8_length term + 2 ≤ 50000 →
  texts_nul_free st →
  search_dgsc term st =
    join_owner st <$>
      filter (λ kv : Z * pendrive_row, spec_matches term kv.2)
             (scan (pendrives st)).
Proof.
  intros Hfree Hnul _ Htexts. unfold search_dgsc. f_equal.
  apply filter_ext_in. intros [id p] Hin%elem_of_scan. cbn [snd].
  destruct (Htexts id p Hin) as [Hn Hd].
  unfold spec_matches, like_null.
  rewrite like_contains by done.
  destruct (description p) as [d |]; [| done].
  by rewrite like_contains by auto.
Qed.

Lemma search_dgsc_literal_term_witness :
  search_dgsc "drive" three_items =
    join_owner three_items <$>
      filter (λ kv : Z * pendrive_row, spec_matches "drive" kv.2)
             (scan (pendrives three_items)).
Proof.
  apply (search_dgsc_literal_term "drive" three_items).
  - unfold wildcard_free. simpl. repeat constructor; discriminate.
  - unfold nul_free. simpl. repeat constructor; discriminate.
  - vm_compute. discriminate.
  - intros id p Hp.
    assert (Hall : map_to_list (pendrives three_items) =
                   map_to_list (pendrives three_items)) by reflexivity.
    apply elem_of_map_to_list in Hp. revert Hp.
    assert (Hlist : map_to_list (pendrives three_items) ≡ₚ
              [(1, PendriveRow "USB Drive" (Some "") (Some 1) "2024-01-01 10:00:00");
               (2, PendriveRow "Box" (Some "spare drive") (Some 1)
                               "2024-01-01 10:01:00");
               (3, PendriveRow "Keyboard" (Some "") (Some 1)
                               "2024-01-01 10:02:00")]).
    { rewrite <- scan_perm. by vm_compute. }
    rewrite Hlist. clear Hall Hlist.
    rewrite !elem_of_cons, elem_of_nil.
    intros [[= -> ->] | [[= -> ->] | [[= -> ->] | []]]];
      (split; [| intros d [= <-]]); unfold nul_free; simpl;
      repeat constructor; discriminate.
Defined.
